(** * print_files.py: ignore patterns, file reading and the concatenating walk

    A shallow embedding of [print_files.py] and the properties of its
    specification.  Python [str] values are lists of code points, files are
    lists of bytes, Python [list] objects live in a heap of references, and
    the effects of the script (the output file, standard output, the files
    it opens, the exceptions it lets escape) are threaded through a small
    state-and-exception monad. *)

From Stdlib Require Import NArith List Strings.String Strings.Ascii Strings.Byte Bool Lia.
From stdpp Require Import base list gmap.

Open Scope N_scope.

(** ** Text *)

(** A Python [str]: a sequence of Unicode code points. *)
Abbreviation char := N (only parsing).
Abbreviation str := (list N) (only parsing).

(** Code points of the string literals of the script. *)
Definition lit (s : string) : str :=
  List.map N_of_ascii (list_ascii_of_string s).

Definition ch_nl : char := 10.
Definition ch_cr : char := 13.
Definition ch_bang : char := 33.
Definition ch_hash : char := 35.
Definition ch_star : char := 42.
Definition ch_hyphen : char := 45.
Definition ch_slash : char := 47.
Definition ch_qmark : char := 63.
Definition ch_lbracket : char := 91.
Definition ch_rbracket : char := 93.

Fixpoint str_eqb (a b : str) : bool :=
  match a, b with
  | [], [] => true
  | x :: a', y :: b' => (x =? y) && str_eqb a' b'
  | _, _ => false
  end.

(** [s.startswith(p)] *)
Fixpoint startswith (s p : str) : bool :=
  match p, s with
  | [], _ => true
  | y :: p', x :: s' => (x =? y) && startswith s' p'
  | _ :: _, [] => false
  end.

(** [s.endswith(p)] *)
Definition endswith (s p : str) : bool := startswith (rev s) (rev p).

(** [str.isspace] on one code point: the Unicode white space characters. *)
Definition isspace (c : char) : bool :=
  ((9 <=? c) && (c <=? 13)) || ((28 <=? c) && (c <=? 32))
  || (c =? 133) || (c =? 160) || (c =? 5760)
  || ((8192 <=? c) && (c <=? 8202))
  || (c =? 8232) || (c =? 8233) || (c =? 8239) || (c =? 8287) || (c =? 12288).

Fixpoint lstrip (s : str) : str :=
  match s with
  | [] => []
  | c :: s' => if isspace c then lstrip s' else s
  end.

Definition rstrip (s : str) : str := rev (lstrip (rev s)).

(** [s.strip()] *)
Definition strip (s : str) : str := rstrip (lstrip s).

(** ** fnmatch

    [fnmatch.fnmatch(name, pat)] of the Python library, on a POSIX system
    (where [os.path.normcase] is the identity): [fnmatch.translate] turns the
    pattern into a regular expression, which must match the whole name. The
    regular expression is kept as a list of tokens. *)

Inductive set_item :=
| Single (c : char)
| Range (lo hi : char).

Inductive token :=
| TStar                                          (* .*  *)
| TAny                                           (* .   *)
| TLit (c : char)                                (* re.escape(c) *)
| TSet (negated : bool) (items : list set_item). (* [...], [^...] *)

Definition item_has (c : char) (it : set_item) : bool :=
  match it with
  | Single x => c =? x
  | Range lo hi => (lo <=? c) && (c <=? hi)
  end.

Definition token_has (t : token) (c : char) : bool :=
  match t with
  | TStar => false
  | TAny => true
  | TLit x => c =? x
  | TSet negated items => xorb negated (existsb (item_has c) items)
  end.

Fixpoint index_of (c : char) (s : str) : option nat :=
  match s with
  | [] => None
  | x :: s' => if x =? c then Some O else S <$> index_of c s'
  end.

(** The search for the closing bracket, on the text after ['[']: a leading
    ['!'] and a [']'] right after it do not close the set. The result is the
    length of [stuff = pat[i:j]]. *)
Definition class_end (s : str) : option nat :=
  let j := match s with c :: _ => if c =? ch_bang then 1%nat else 0%nat | [] => 0%nat end in
  let j := match drop j s with c :: _ => if c =? ch_rbracket then S j else j | [] => j end in
  (fun k => (j + k)%nat) <$> index_of ch_rbracket (drop j s).

(** The [while True: k = pat.find('-', k, j)] loop: [skip] characters are
    passed over before a hyphen can start a range ([k = i+1], [k = i+2] after
    a leading ['!'], [k = k+3] after a hyphen); [cur] is the chunk read so far,
    reversed. The last chunk is returned even when it is empty. *)
Fixpoint chunks_from (skip : nat) (cur : str) (s : str) : list str :=
  match s with
  | [] => [rev cur]
  | c :: s' =>
      match skip with
      | O => if c =? ch_hyphen then rev cur :: chunks_from 2 [] s'
             else chunks_from O (c :: cur) s'
      | S k => chunks_from k (c :: cur) s'
      end
  end.

(** [if chunk: chunks.append(chunk) else: chunks[-1] += '-'] *)
Definition close_chunks (cs : list str) : list str :=
  match rev cs with
  | [] :: prev :: before => rev ((prev ++ [ch_hyphen]) :: before)
  | _ => cs
  end.

Definition split_chunks (stuff : str) : list str :=
  close_chunks (chunks_from (if startswith stuff [ch_bang] then 2 else 1) [] stuff).

Definition last_char (s : str) : option char := last s.

(** [for k in range(len(chunks)-1, 0, -1)]: a range whose bounds are out of
    order is removed together with its two bounds. *)
Fixpoint remove_empty_ranges (cs : list str) : list str :=
  match cs with
  | [] => []
  | c :: rest =>
      match remove_empty_ranges rest with
      | [] => [c]
      | d :: rest' =>
          match last_char c, d with
          | Some lo, hi :: d' =>
              if hi <? lo then (removelast c ++ d') :: rest' else c :: d :: rest'
          | _, _ => c :: d :: rest'
          end
      end
  end.

(** What the character set ['-'.join(chunks)] denotes to the regular
    expression engine: a hyphen between two chunks makes a range of the
    characters on its two sides, and is an ordinary character when nothing
    stands before it. *)
Fixpoint chunk_items (cur : str) (rest : list str) : list set_item :=
  match rest with
  | [] => List.map Single cur
  | d :: rest' =>
      match last_char cur with
      | None => Single ch_hyphen :: chunk_items d rest'
      | Some lo =>
          List.map Single (removelast cur) ++
          match d with
          | hi :: d' => Range lo hi :: chunk_items d' rest'
          | [] => Single lo :: Single ch_hyphen :: chunk_items [] rest'
          end
      end
  end.

(** The token of [[stuff]]: ['(?!)'] is the empty set, a leading ['!'] of
    what is left after the removal of the empty ranges negates the set. *)
Definition class_token (stuff : str) : token :=
  match remove_empty_ranges (split_chunks stuff) with
  | [] => TSet false []
  | c :: rest =>
      match c with
      | x :: c' =>
          if x =? ch_bang then TSet true (chunk_items c' rest)
          else TSet false (chunk_items c rest)
      | [] => TSet false (chunk_items c rest)
      end
  end.

(** The main loop of [translate]. [after_star] says that the last token is a
    star (consecutive stars are compressed into one); [skip] counts the
    characters of a bracket expression still to pass over ([i = j+1]). *)
Fixpoint translate_from (after_star : bool) (skip : nat) (pat : str) : list token :=
  match pat with
  | [] => []
  | c :: rest =>
      match skip with
      | S k => translate_from after_star k rest
      | O =>
          if c =? ch_star then
            if after_star then translate_from true O rest
            else TStar :: translate_from true O rest
          else if c =? ch_qmark then TAny :: translate_from false O rest
          else if c =? ch_lbracket then
            match class_end rest with
            | None => TLit ch_lbracket :: translate_from false O rest
            | Some j => class_token (take j rest) :: translate_from false (S j) rest
            end
          else TLit c :: translate_from false O rest
      end
  end.

Definition translate (pat : str) : list token := translate_from false O pat.

(** Whether the whole of [s] matches the tokens ([(?s:...)\Z] with
    [re.match]). *)
Fixpoint re_match (ts : list token) (s : str) : bool :=
  match ts with
  | [] => match s with [] => true | _ :: _ => false end
  | TStar :: ts' =>
      (fix star (s : str) : bool :=
         re_match ts' s || match s with [] => false | _ :: s' => star s' end) s
  | t :: ts' =>
      match s with
      | [] => false
      | c :: s' => token_has t c && re_match ts' s'
      end
  end.

Definition fnmatch (name pat : str) : bool := re_match (translate pat) name.

(** ** Bytes and codecs *)

Definition bytes := list byte.

Definition is_cont (b : N) : bool := (128 <=? b) && (b <=? 191).
Definition low6 (b : N) : N := N.land b 63.

(** The strict UTF-8 decoder of Python, on byte values: no overlong forms, no
    surrogates, nothing above U+10FFFF, no truncated sequence. [None] is
    [UnicodeDecodeError]. *)
Fixpoint utf8_decode_N (bs : list N) : option str :=
  match bs with
  | [] => Some []
  | b0 :: r0 =>
      if b0 <? 128 then cons b0 <$> utf8_decode_N r0
      else if b0 <? 194 then None
      else if b0 <? 224 then
        match r0 with
        | b1 :: r1 =>
            if is_cont b1
            then cons (N.lor (N.shiftl (N.land b0 31) 6) (low6 b1)) <$> utf8_decode_N r1
            else None
        | _ => None
        end
      else if b0 <? 240 then
        match r0 with
        | b1 :: b2 :: r2 =>
            if ((if b0 =? 224 then 160 else 128) <=? b1)
               && (b1 <=? (if b0 =? 237 then 159 else 191))
               && is_cont b2
            then cons (N.lor (N.shiftl (N.land b0 15) 12)
                         (N.lor (N.shiftl (low6 b1) 6) (low6 b2)))
                   <$> utf8_decode_N r2
            else None
        | _ => None
        end
      else if b0 <? 245 then
        match r0 with
        | b1 :: b2 :: b3 :: r3 =>
            if ((if b0 =? 240 then 144 else 128) <=? b1)
               && (b1 <=? (if b0 =? 244 then 143 else 191))
               && is_cont b2 && is_cont b3
            then cons (N.lor (N.shiftl (N.land b0 7) 18)
                         (N.lor (N.shiftl (low6 b1) 12)
                            (N.lor (N.shiftl (low6 b2) 6) (low6 b3))))
                   <$> utf8_decode_N r3
            else None
        | _ => None
        end
      else None
  end.

Definition utf8_decode (bs : bytes) : option str :=
  utf8_decode_N (List.map Byte.to_N bs).

(** Latin-1: every byte is the code point of the same value. *)
Definition latin1_decode (bs : bytes) : str := List.map Byte.to_N bs.

Inductive encoding := UTF8 | Latin1.

Definition decode (enc : encoding) (bs : bytes) : option str :=
  match enc with
  | UTF8 => utf8_decode bs
  | Latin1 => Some (latin1_decode bs)
  end.

(** Text mode with [newline=None]: on reading, ["\r\n"] and ["\r"] become
    ["\n"]. *)
Fixpoint universal_newlines (s : str) : str :=
  match s with
  | [] => []
  | c :: r =>
      if c =? ch_cr then
        ch_nl :: match r with
                 | d :: r' => if d =? ch_nl then universal_newlines r'
                              else universal_newlines r
                 | [] => []
                 end
      else c :: universal_newlines r
  end.

(** The lines a text file yields when iterated, each with its newline; [cur]
    is the line read so far, reversed. *)
Fixpoint lines_from (cur : str) (s : str) : list str :=
  match s with
  | [] => match cur with [] => [] | _ :: _ => [rev cur] end
  | c :: s' =>
      if c =? ch_nl then rev (c :: cur) :: lines_from [] s'
      else lines_from (c :: cur) s'
  end.

Definition text_lines (s : str) : list str := lines_from [] s.

(** ** Paths *)

(** [os.path.join(a, b)] of [posixpath]. *)
Definition path_join (a b : str) : str :=
  if startswith b [ch_slash] then b
  else if match a with [] => true | _ :: _ => false end || endswith a [ch_slash]
       then a ++ b
       else a ++ ch_slash :: b.

(** ** The file system

    What the script reads is a snapshot that does not change during a run: a
    path names no file, a file that cannot be opened (no permission, or a
    directory), or a file with its bytes. [os.walk] sees a tree of directory
    names and file names, in the order [os.scandir] lists them; a path that
    is not a directory that can be listed has no tree. [glob.glob] is a
    function of the pattern.  The snapshot is what a read finds at the time
    it is made: for the output file itself, should the walk meet it, that is
    the file after its truncation, never its previous content. *)

Inductive file_state :=
| Missing
| Unreadable
| Data (content : bytes).

Unset Elimination Schemes.
Inductive dir :=
| Dir (subdirs : list (str * dir)) (files : list str).
Set Elimination Schemes.

Record filesys := {
  fs_file : str -> file_state;
  fs_tree : str -> option dir;
  fs_glob : str -> list str
}.

(** [os.path.exists] *)
Definition path_exists (fs : filesys) (path : str) : bool :=
  match fs_file fs path with
  | Missing => false
  | _ => true
  end.

(** ** The state of a run

    [w_heap] holds the Python list objects, a reference being an index;
    [w_disk] the text files the script can write, by path (what it reads
    comes from the snapshot); [w_stdout] the lines printed; [w_opened] the
    files opened for reading, in order. *)

Definition loc := nat.

Record world := {
  w_heap : list (list str);
  w_disk : gmap str str;
  w_stdout : list str;
  w_opened : list (str * encoding)
}.

Definition set_heap (h : list (list str)) (w : world) : world :=
  {| w_heap := h; w_disk := w_disk w; w_stdout := w_stdout w; w_opened := w_opened w |}.
Definition set_disk (d : gmap str str) (w : world) : world :=
  {| w_heap := w_heap w; w_disk := d; w_stdout := w_stdout w; w_opened := w_opened w |}.
Definition set_stdout (s : list str) (w : world) : world :=
  {| w_heap := w_heap w; w_disk := w_disk w; w_stdout := s; w_opened := w_opened w |}.
Definition set_opened (l : list (str * encoding)) (w : world) : world :=
  {| w_heap := w_heap w; w_disk := w_disk w; w_stdout := w_stdout w; w_opened := l |}.

Inductive exn :=
| OSError (path : str)
| UnicodeDecodeError.

Inductive result (A : Type) :=
| Ok (a : A)
| Raise (e : exn).
Arguments Ok {A} a.
Arguments Raise {A} e.

(** A computation changes the world and returns or raises; the world a
    raising computation leaves behind is kept. *)
Definition M (A : Type) : Type := world -> world * result A.

#[export] Instance M_ret : MRet M := fun A a w => (w, Ok a).
#[export] Instance M_bind : MBind M := fun A B f m w =>
  match m w with
  | (w', Ok a) => f a w'
  | (w', Raise e) => (w', Raise e)
  end.

Definition raise {A} (e : exn) : M A := fun w => (w, Raise e).

(** [try: m except: handler] *)
Definition try_except {A} (m : M A) (handler : exn -> M A) : M A := fun w =>
  match m w with
  | (w', Ok a) => (w', Ok a)
  | (w', Raise e) => handler e w'
  end.

(** [for x in l: body] *)
Fixpoint for_each {A} (l : list A) (body : A -> M unit) : M unit :=
  match l with
  | [] => mret tt
  | x :: l' => body x ;; for_each l' body
  end.

(** [[x for x in l if keep(x)]] *)
Fixpoint filterM {A} (keep : A -> M bool) (l : list A) : M (list A) :=
  match l with
  | [] => mret []
  | x :: l' =>
      b ← keep x;
      rest ← filterM keep l';
      mret (if (b : bool) then x :: rest else rest)
  end.

(** Python lists. *)

(** [[...]]: a new list object. *)
Definition new_list (v : list str) : M loc := fun w =>
  (set_heap (w_heap w ++ [v]) w, Ok (length (w_heap w))).

Definition get_list (l : loc) : M (list str) := fun w =>
  (w, Ok (default [] (w_heap w !! l))).

(** [l.append(x)] *)
Definition list_append (l : loc) (x : str) : M unit := fun w =>
  (set_heap (alter (fun v => v ++ [x]) l (w_heap w)) w, Ok tt).

(** [l.extend(xs)] for the elements [xs] *)
Definition list_extend_with (l : loc) (xs : list str) : M unit := fun w =>
  (set_heap (alter (fun v => v ++ xs) l (w_heap w)) w, Ok tt).

(** [l.extend(l2)] for a list object [l2] *)
Definition list_extend (l l2 : loc) : M unit :=
  xs ← get_list l2; list_extend_with l xs.

(** [print(s)] *)
Definition print (s : str) : M unit := fun w =>
  (set_stdout (w_stdout w ++ [s]) w, Ok tt).

(** [open(path, "w")]: the file is created or truncated; the handle is the
    path. *)
Definition open_write (path : str) : M str := fun w =>
  (set_disk (<[path := []]> (w_disk w)) w, Ok path).

(** [out.write(s)] *)
Definition file_write (out : str) (s : str) : M unit := fun w =>
  (set_disk (<[out := default [] (w_disk w !! out) ++ s]> (w_disk w)) w, Ok tt).

Section Script.

Variable fs : filesys.

(** [with open(path, "r", encoding=enc) as f: f.read()] *)
Definition open_read (enc : encoding) (path : str) : M str := fun w =>
  let w' := set_opened (w_opened w ++ [(path, enc)]) w in
  match fs_file fs path with
  | Data content =>
      match decode enc content with
      | Some text => (w', Ok (universal_newlines text))
      | None => (w', Raise UnicodeDecodeError)
      end
  | _ => (w', Raise (OSError path))
  end.

(** The default encoding of [open(path, "r")] is the locale's, taken to be
    UTF-8. *)
Definition read_gitignore (gitignore_path : str) : M loc :=
  patterns ← new_list [];
  (if path_exists fs gitignore_path then
     text ← open_read UTF8 gitignore_path;
     for_each (text_lines text) (fun line =>
       let line := strip line in
       if negb (str_eqb line []) && negb (startswith line [ch_hash])
       then list_append patterns line
       else mret tt)
   else mret tt) ;;
  mret patterns.

(** The loop of [is_ignored]. *)
Fixpoint any_match (path : str) (patterns : list str) : bool :=
  match patterns with
  | [] => false
  | pattern :: rest =>
      if fnmatch path pattern || fnmatch path (ch_star :: ch_slash :: pattern)
      then true
      else any_match path rest
  end.

Definition is_ignored (path : str) (patterns : loc) : M bool :=
  pats ← get_list patterns;
  if any_match path pats then mret true
  else print path ;; mret false.

Definition read_file_contents (file_path : str) : M str :=
  try_except (open_read UTF8 file_path)
    (fun e => match e with
              | UnicodeDecodeError => open_read Latin1 file_path
              | _ => raise e
              end).

(** The three writes of an entry, the same in both loops. *)
Definition write_entry (out : str) (file_path : str) : M unit :=
  file_write out (file_path ++ [ch_nl]) ;;
  file_contents ← read_file_contents file_path;
  file_write out file_contents ;;
  file_write out [ch_nl; ch_nl].

(** [for root, dirs, files in os.walk(root_dir)] with the body of the loop:
    [os.walk] yields a directory, the body filters [dirs] in place and
    handles the files, and the walk goes on into the names left in [dirs],
    one after the other, before the next sibling. *)
Fixpoint walk (patterns : loc) (out : str) (root : str) (d : dir) : M unit :=
  match d with
  | Dir subdirs files =>
      dirs ← filterM (fun d => ignored ← is_ignored (path_join root d) patterns;
                               mret (negb ignored))
                     (List.map fst subdirs);
      for_each files (fun file =>
        let file_path := path_join root file in
        ignored ← is_ignored file_path patterns;
        if (ignored : bool) then mret tt else write_entry out file_path) ;;
      (fix descend (l : list (str * dir)) : M unit :=
         match l with
         | [] => mret tt
         | (name, sub) :: l' =>
             (if existsb (str_eqb name) dirs
              then walk patterns out (path_join root name) sub
              else mret tt) ;;
             descend l'
         end) subdirs
  end.

Definition write_files_to_output (root_dir output_file : str)
    (additional_patterns wildcard_files : option loc) : M unit :=
  additional_patterns ← match additional_patterns with
                        | None => new_list []
                        | Some l => mret l
                        end;
  wildcard_files ← match wildcard_files with
                   | None => new_list []
                   | Some l => mret l
                   end;
  patterns ← read_gitignore (lit ".gitignore");
  list_extend patterns additional_patterns ;;
  out ← open_write output_file;
  files ← get_list wildcard_files;
  for_each files (fun wildcard_file =>
    ignored ← is_ignored wildcard_file patterns;
    if (ignored : bool) then mret tt else write_entry out wildcard_file) ;;
  match fs_tree fs root_dir with
  | Some d => walk patterns out root_dir d
  | None => mret tt
  end.

Definition builtin_patterns : list str :=
  List.map lit
    [ ".git"; ".gitignore"; "*.py"; "*.lock"; "*.lockb"; "*.png"; "*.jpg";
      "*.jpeg"; "*.ico"; "*.gif"; "*.svg"; "*.pdf"; "*.doc"; "*.docx";
      "*.sqlite*"; "*.ppt"; "*.pptx"; "*-lock.json"; ".devcontainer";
      ".vscode"; "node_modules"; "prisma/migrations"; ".next" ]%string.

(** The script, after [parser.parse_args()]. *)
Definition main (root_directory : str) (wildcard_patterns : list str)
    (output_file : str) : M unit :=
  wildcard_files ← new_list [];
  for_each wildcard_patterns (fun pattern =>
    list_extend_with wildcard_files (fs_glob fs pattern)) ;;
  additional_patterns ← new_list builtin_patterns;
  write_files_to_output root_directory output_file
    (Some additional_patterns) (Some wildcard_files).

End Script.

(** ** What a run does, as functions of the snapshot

    The definitions below say in terms of lists and texts what the loops
    above do; the theorems relate the two. *)

Definition heap_list (w : world) (l : loc) : list str :=
  default [] (w_heap w !! l).

(** A path ends in [/<base>] for a [base] that matches the pattern. *)
Definition matches_below (path pattern : str) : Prop :=
  exists prefix base : str,
    path = prefix ++ ch_slash :: base /\ fnmatch base pattern = true.

(** The lines kept from an ignore file, in the words of the specification:
    each line is stripped, blank lines and lines beginning with [#] are
    skipped. *)
Definition is_pattern_line (line : str) : bool :=
  match line with
  | [] => false
  | c :: _ => negb (c =? ch_hash)
  end.

Definition pattern_lines (text : str) : list str :=
  List.filter is_pattern_line (List.map strip (text_lines text)).

(** One call of [is_ignored] made by a run: on a subdirectory of the walk, or
    on a file (of the wildcard list or of the walk). *)
Inductive check :=
| CDir (path : str)
| CFile (path : str).

(** The paths of the files that pass the filter. *)
Fixpoint kept (pats : list str) (cs : list check) : list str :=
  match cs with
  | [] => []
  | CDir _ :: cs' => kept pats cs'
  | CFile p :: cs' => if any_match p pats then kept pats cs' else p :: kept pats cs'
  end.

(** The calls of [is_ignored] of a walk, in order. *)
Fixpoint walk_checks (pats : list str) (root : str) (d : dir) : list check :=
  match d with
  | Dir subdirs files =>
      let dirs := List.filter (fun n => negb (any_match (path_join root n) pats))
                              (List.map fst subdirs) in
      List.map (fun n => CDir (path_join root n)) (List.map fst subdirs) ++
      List.map (fun f => CFile (path_join root f)) files ++
      (fix descend (l : list (str * dir)) : list check :=
         match l with
         | [] => []
         | (name, sub) :: l' =>
             (if existsb (str_eqb name) dirs
              then walk_checks pats (path_join root name) sub
              else []) ++ descend l'
         end) subdirs
  end.

(** The tree without what lies beneath the excluded subdirectories: an
    excluded subdirectory is still listed, and is empty. *)
Fixpoint prune (pats : list str) (root : str) (d : dir) : dir :=
  match d with
  | Dir subdirs files =>
      Dir ((fix each (l : list (str * dir)) : list (str * dir) :=
              match l with
              | [] => []
              | (name, sub) :: l' =>
                  (name, if any_match (path_join root name) pats then Dir [] []
                         else prune pats (path_join root name) sub) :: each l'
              end) subdirs)
          files
  end.

(** The unit of the output: the path on a line of its own, the content, two
    newlines. *)
Definition entry (path content : str) : str :=
  path ++ ch_nl :: content ++ [ch_nl; ch_nl].

Section Outcome.

Variable fs : filesys.

(** What [read_file_contents] returns. *)
Definition read_text (path : str) : result str :=
  match fs_file fs path with
  | Data content =>
      match utf8_decode content with
      | Some text => Ok (universal_newlines text)
      | None => Ok (universal_newlines (latin1_decode content))
      end
  | _ => Raise (OSError path)
  end.

(** The files [read_file_contents] opens. *)
Definition read_log (path : str) : list (str * encoding) :=
  match fs_file fs path with
  | Data content =>
      match utf8_decode content with
      | Some _ => [(path, UTF8)]
      | None => [(path, UTF8); (path, Latin1)]
      end
  | _ => [(path, UTF8)]
  end.

(** The text appended to the output for the files [ps], and how the loop
    ends: the first file that cannot be read stops it, after its path line. *)
Fixpoint emit (ps : list str) : str * result unit :=
  match ps with
  | [] => ([], Ok tt)
  | p :: ps' =>
      match read_text p with
      | Ok content => let '(text, r) := emit ps' in (entry p content ++ text, r)
      | Raise e => (p ++ [ch_nl], Raise e)
      end
  end.

(** The entry of a file, empty content standing for a file that cannot be
    read. *)
Definition entry_of (path : str) : str :=
  entry path (match read_text path with Ok content => content | Raise _ => [] end).

(** One call of [is_ignored] with what the loops do after it. *)
Definition do_check (out : str) (pats : list str) (c : check) : M unit :=
  match c with
  | CDir p => if any_match p pats then mret tt else print p
  | CFile p => if any_match p pats then mret tt
               else print p ;; write_entry fs out p
  end.

(** What loading [.gitignore] gives. *)
Definition gitignore_patterns (path : str) : result (list str) :=
  match fs_file fs path with
  | Missing => Ok []
  | Unreadable => Raise (OSError path)
  | Data content =>
      match utf8_decode content with
      | Some text => Ok (pattern_lines (universal_newlines text))
      | None => Raise UnicodeDecodeError
      end
  end.

Definition gitignore_log (path : str) : list (str * encoding) :=
  if path_exists fs path then [(path, UTF8)] else [].

(** The list an optional argument stands for, and the list object its
    default creates. *)
Definition arg_list (w : world) (arg : option loc) : list str :=
  match arg with
  | None => []
  | Some l => heap_list w l
  end.

Definition arg_alloc (arg : option loc) : list (list str) :=
  match arg with
  | None => [[]]
  | Some _ => []
  end.

Definition arg_loc (w : world) (arg : option loc) : loc :=
  match arg with
  | None => length (w_heap w)
  | Some l => l
  end.

Definition arg_valid (w : world) (arg : option loc) : Prop :=
  match arg with
  | None => True
  | Some l => (l < length (w_heap w))%nat
  end.

(** The world in which the two loops start: the lists made for the missing
    arguments and the list of patterns are new, the output file is empty,
    the ignore file has been opened if there is one. *)
Definition start_world (out : str) (a wl : option loc) (pats : list str)
    (w : world) : world :=
  {| w_heap := w_heap w ++ arg_alloc a ++ arg_alloc wl ++ [pats];
     w_disk := <[out := []]> (w_disk w);
     w_stdout := w_stdout w;
     w_opened := w_opened w ++ gitignore_log (lit ".gitignore") |}.

(** All the calls of [is_ignored] of [write_files_to_output], in order. *)
Definition all_checks (pats wildcard_files : list str) (root_dir : str) : list check :=
  List.map CFile wildcard_files ++
  match fs_tree fs root_dir with
  | Some d => walk_checks pats root_dir d
  | None => []
  end.

End Outcome.

(** A world whose heap holds the given lists and nothing else. *)
Definition world_of_lists (h : list (list str)) : world :=
  {| w_heap := h; w_disk := ∅; w_stdout := []; w_opened := [] |}.

(** ** Two small file systems

    [example_fs]: an ignore file with one pattern, a comment and a blank
    line; under [.], two text files and a script, [node_modules] with a file
    in it, and [sub] with a file that is not UTF-8.  [broken_fs]: three
    files under [.], the second of which cannot be opened. *)

Fixpoint assoc {A} (k : str) (l : list (str * A)) : option A :=
  match l with
  | [] => None
  | (k', v) :: l' => if str_eqb k k' then Some v else assoc k l'
  end.

Definition text_file (s : string) : file_state := Data (list_byte_of_string s).

Definition example_fs : filesys := {|
  fs_file := fun p => default Missing (assoc p
    [ (lit ".gitignore", Data (list_byte_of_string "secret.txt" ++ [x0a]
                               ++ list_byte_of_string "  # indented comment  " ++ [x0a]
                               ++ list_byte_of_string "# comment" ++ [x0d; x0a; x0a]
                               ++ list_byte_of_string " *.log "));
      (lit "./a.txt", text_file "hello");
      (lit "./secret.txt", text_file "s");
      (lit "./b.py", text_file "pass");
      (lit "./node_modules/inner.txt", text_file "in");
      (lit "./sub/latin.txt", Data [x63; x61; x66; xe9]) ]);
  fs_tree := fun p => assoc p
    [ (lit ".", Dir [ (lit "node_modules", Dir [] [lit "inner.txt"]);
                      (lit "sub", Dir [] [lit "latin.txt"]) ]
                    [lit "a.txt"; lit "secret.txt"; lit "b.py"]) ];
  fs_glob := fun p => default [] (assoc p
    [ (lit "./*.txt", [lit "./a.txt"; lit "./secret.txt"]);
      (lit "./sub/*", [lit "./sub/latin.txt"]) ])
|}.


(** A world before a run: its heap, and what the output file holds. *)
Definition world_before (h : list (list str)) (out old : str) : world :=
  {| w_heap := h; w_disk := {[ out := old ]}; w_stdout := []; w_opened := [] |}.

(** A caller's heap: the built-in patterns at reference 0, a list of
    wildcard files at reference 1. *)
Definition example_world : world :=
  world_of_lists [builtin_patterns; [lit "./a.txt"; lit "./b.py"]].

Definition example_gitignore : list str := [lit "secret.txt"; lit "*.log"].

(** ** More of what a run does *)

(** A character that [fnmatch.translate] does not take as itself, and a
    pattern free of such characters. *)
Definition is_meta (c : char) : bool :=
  (c =? ch_star) || (c =? ch_qmark) || (c =? ch_lbracket).

Definition literal (pat : str) : bool := forallb (fun c => negb (is_meta c)) pat.

(** The paths [is_ignored] prints for the checks [cs]: those that pass. *)
Fixpoint passed (pats : list str) (cs : list check) : list str :=
  match cs with
  | [] => []
  | CDir p :: cs' | CFile p :: cs' =>
      if any_match p pats then passed pats cs' else p :: passed pats cs'
  end.

(** [reach pats root d p]: [p] is the path of a file of the tree [d] walked
    from [root], and every directory between [d] and the file passes the
    filter. *)
Inductive reach (pats : list str) : str -> dir -> str -> Prop :=
| reach_file (root : str) (subdirs : list (str * dir)) (files : list str) (f : str) :
    In f files ->
    reach pats root (Dir subdirs files) (path_join root f)
| reach_sub (root : str) (subdirs : list (str * dir)) (files : list str)
    (name : str) (sub : dir) (p : str) :
    In (name, sub) subdirs ->
    any_match (path_join root name) pats = false ->
    reach pats (path_join root name) sub p ->
    reach pats root (Dir subdirs files) p.

(** The names [os.scandir] lists are names, not paths: none begins with a
    slash.  [relative_names d] says so of every name in the tree. *)
Definition relative_name (n : str) : bool := negb (startswith n [ch_slash]).

Fixpoint relative_names (d : dir) : bool :=
  match d with
  | Dir subdirs files =>
      forallb relative_name files &&
      (fix each (l : list (str * dir)) : bool :=
         match l with
         | [] => true
         | (name, sub) :: l' => relative_name name && relative_names sub && each l'
         end) subdirs
  end.

(** The tree under [.] of [example_fs], and a world whose only list is
    the patterns of a run on it. *)
Definition example_tree : dir :=
  Dir [ (lit "node_modules", Dir [] [lit "inner.txt"]);
        (lit "sub", Dir [] [lit "latin.txt"]) ]
      [lit "a.txt"; lit "secret.txt"; lit "b.py"].

Definition example_walk_world : world :=
  world_before [example_gitignore ++ builtin_patterns] (lit "output.txt") (lit "OLD").

(** * Properties *)

(** ** The monad *)

Lemma run_bind {A B} (m : M A) (f : A -> M B) (w : world) :
  (m ≫= f) w = match m w with
               | (w', Ok a) => f a w'
               | (w', Raise e) => (w', Raise e)
               end.
Proof. reflexivity. Qed.

Lemma run_ret {A} (a : A) (w : world) : (mret a : M A) w = (w, Ok a).
Proof. reflexivity. Qed.

Lemma for_each_app {A} (l1 l2 : list A) (body : A -> M unit) (w : world) :
  for_each (l1 ++ l2) body w = (for_each l1 body ;; for_each l2 body) w.
Proof.
  revert w. induction l1 as [|x l1 IH]; intros w; simpl.
  - reflexivity.
  - rewrite !run_bind. destruct (body x w) as [w1 [[]|e]]; [|reflexivity].
    rewrite IH. reflexivity.
Qed.

(** ** fnmatch *)

Lemma re_match_star (ts : list token) (s : str) :
  re_match (TStar :: ts) s =
  re_match ts s || match s with [] => false | _ :: s' => re_match (TStar :: ts) s' end.
Proof. destruct s; reflexivity. Qed.

Lemma translate_star_slash (pattern : str) :
  translate (ch_star :: ch_slash :: pattern) = TStar :: TLit ch_slash :: translate pattern.
Proof. reflexivity. Qed.

Lemma re_match_star_slash (ts : list token) (s : str) :
  re_match (TStar :: TLit ch_slash :: ts) s = true <->
  exists prefix base, s = prefix ++ ch_slash :: base /\ re_match ts base = true.
Proof.
  induction s as [|c s IH].
  - split; [discriminate|]. intros (prefix & base & H & _).
    destruct prefix; discriminate.
  - rewrite re_match_star, orb_true_iff, IH. split.
    + intros [H|(prefix & base & -> & H)].
      * simpl in H. apply andb_true_iff in H as [Hc H].
        apply N.eqb_eq in Hc. subst c. exists [], s. split; [reflexivity|assumption].
      * exists (c :: prefix), base. split; [reflexivity|assumption].
    + intros (prefix & base & Heq & H). destruct prefix as [|c' prefix]; simpl in Heq.
      * injection Heq as -> ->. left. simpl. assumption.
      * injection Heq as -> ->. right. exists prefix, base. split; [reflexivity|assumption].
Qed.

Lemma fnmatch_below (path pattern : str) :
  fnmatch path (ch_star :: ch_slash :: pattern) = true <-> matches_below path pattern.
Proof.
  unfold fnmatch, matches_below. rewrite translate_star_slash.
  apply re_match_star_slash.
Qed.

Lemma any_match_iff (path : str) (pats : list str) :
  any_match path pats = true <->
  exists pattern, In pattern pats /\
    (fnmatch path pattern = true \/ matches_below path pattern).
Proof.
  induction pats as [|pattern pats IH]; simpl.
  - split; [discriminate|]. intros (? & [] & _).
  - destruct (fnmatch path pattern || fnmatch path (ch_star :: ch_slash :: pattern)) eqn:E.
    + split; [|reflexivity]. intros _. exists pattern. split; [left; reflexivity|].
      apply orb_true_iff in E as [E|E]; [left; assumption|right].
      apply fnmatch_below. assumption.
    + rewrite IH. apply orb_false_iff in E as [E1 E2].
      split; intros (p & Hin & H).
      * exists p. split; [right; assumption|assumption].
      * destruct Hin as [<-|Hin]; [|exists p; split; assumption].
        destruct H as [H|H]; [congruence|].
        apply fnmatch_below in H. congruence.
Qed.

Lemma is_ignored_run (path : str) (patterns : loc) (w : world) :
  is_ignored path patterns w =
  if any_match path (heap_list w patterns) then (w, Ok true)
  else (set_stdout (w_stdout w ++ [path]) w, Ok false).
Proof.
  unfold is_ignored. rewrite run_bind. unfold get_list at 1. fold (heap_list w patterns).
  destruct (any_match path (heap_list w patterns)); reflexivity.
Qed.

(** C1. [is_ignored(P, S)] returns true exactly when some pattern of [S]
    matches [P] as it stands, or matches what follows a slash of [P] (the
    pattern read as "any path ending in [/<pattern>]"); it returns false
    otherwise.  So [*.py] excludes [foo.py] and [dir/foo.py], and [.git]
    excludes [.git] and [sub/.git] but not [.github]. *)
Theorem is_ignored_iff :
  (forall (path : str) (patterns : loc) (w : world),
     exists b : bool,
       snd (is_ignored path patterns w) = Ok b /\
       (b = true <->
        exists pattern, In pattern (heap_list w patterns) /\
          (fnmatch path pattern = true \/ matches_below path pattern))) /\
  snd (is_ignored (lit "foo.py") O (world_of_lists [[lit "*.py"]])) = Ok true /\
  snd (is_ignored (lit "dir/foo.py") O (world_of_lists [[lit "*.py"]])) = Ok true /\
  snd (is_ignored (lit ".git") O (world_of_lists [[lit ".git"]])) = Ok true /\
  snd (is_ignored (lit "sub/.git") O (world_of_lists [[lit ".git"]])) = Ok true /\
  snd (is_ignored (lit ".github") O (world_of_lists [[lit ".git"]])) = Ok false.
Proof.
  split; [|repeat split; vm_compute; reflexivity].
  intros path patterns w. rewrite is_ignored_run.
  destruct (any_match path (heap_list w patterns)) eqn:E.
  - exists true. split; [reflexivity|]. split; [|reflexivity].
    intros _. apply any_match_iff. assumption.
  - exists false. split; [reflexivity|]. split; [discriminate|].
    intros H. apply any_match_iff in H. congruence.
Qed.

(** ** Reading a file *)

Section Reading.

Variable fs : filesys.

Lemma latin1_total (content : bytes) : decode Latin1 content = Some (latin1_decode content).
Proof. reflexivity. Qed.

Lemma read_file_contents_run (path : str) (w : world) :
  read_file_contents fs path w =
  (set_opened (w_opened w ++ read_log fs path) w, read_text fs path).
Proof.
  unfold read_file_contents, try_except, open_read, read_log, read_text.
  destruct (fs_file fs path) as [| |content]; simpl; try reflexivity.
  destruct (utf8_decode content) as [text|]; simpl; [reflexivity|].
  unfold set_opened; simpl. rewrite <- app_assoc. reflexivity.
Qed.

Lemma file_write_run (out s : str) (w : world) :
  file_write out s w =
  (set_disk (<[out := default [] (w_disk w !! out) ++ s]> (w_disk w)) w, Ok tt).
Proof. reflexivity. Qed.

Lemma write_entry_run (out path : str) (w : world) :
  write_entry fs out path w =
  let old := default [] (w_disk w !! out) in
  let w' := set_opened (w_opened w ++ read_log fs path) w in
  match read_text fs path with
  | Ok content => (set_disk (<[out := old ++ entry path content]> (w_disk w)) w', Ok tt)
  | Raise e => (set_disk (<[out := old ++ path ++ [ch_nl]]> (w_disk w)) w', Raise e)
  end.
Proof.
  unfold write_entry. rewrite run_bind, file_write_run. rewrite run_bind.
  rewrite read_file_contents_run.
  destruct (read_text fs path) as [content|e]; simpl; [|reflexivity].
  rewrite run_bind, !file_write_run. simpl.
  rewrite !lookup_insert_eq. simpl. rewrite !insert_insert_eq.
  unfold entry, set_disk, set_opened; simpl.
  rewrite <- !app_assoc. reflexivity.
Qed.

(** C3. [read_file_contents] opens the file as UTF-8 first.  When the bytes
    decode, that is the result and the file is opened once; when they do not,
    and only then, the same file is opened a second time as Latin-1, which
    decodes any bytes, so the call returns a string and the entry of the file
    is written in full; when the file cannot be opened the error is raised
    to the caller and Latin-1 is not tried. *)
Theorem read_file_contents_fallback :
  (forall content : bytes, decode Latin1 content = Some (latin1_decode content)) /\
  (forall (path : str) (w : world),
     read_file_contents fs path w =
     match fs_file fs path with
     | Data content =>
         match utf8_decode content with
         | Some text =>
             (set_opened (w_opened w ++ [(path, UTF8)]) w,
              Ok (universal_newlines text))
         | None =>
             (set_opened (w_opened w ++ [(path, UTF8); (path, Latin1)]) w,
              Ok (universal_newlines (latin1_decode content)))
         end
     | _ => (set_opened (w_opened w ++ [(path, UTF8)]) w, Raise (OSError path))
     end) /\
  (forall (out path : str) (w : world),
     match fs_file fs path with
     | Data content =>
         match utf8_decode content with
         | Some _ => True
         | None =>
             snd (write_entry fs out path w) = Ok tt /\
             w_disk (fst (write_entry fs out path w)) !! out =
             Some (default [] (w_disk w !! out)
                   ++ entry path (universal_newlines (latin1_decode content)))
         end
     | _ => snd (write_entry fs out path w) = Raise (OSError path)
     end).
Proof.
  split; [exact latin1_total|]. split.
  - intros path w. rewrite read_file_contents_run. unfold read_log, read_text.
    destruct (fs_file fs path) as [| |content]; try reflexivity.
    destruct (utf8_decode content); reflexivity.
  - intros out path w. rewrite write_entry_run. unfold read_text.
    destruct (fs_file fs path) as [| |content]; try reflexivity.
    destruct (utf8_decode content); [exact I|]. simpl.
    split; [reflexivity|]. apply lookup_insert_eq.
Qed.

End Reading.

(** ** The two loops as a sequence of checks *)

Lemma dir_ind (P : dir -> Prop)
    (H : forall subdirs files,
        Forall (fun nd => P (snd nd)) subdirs -> P (Dir subdirs files)) :
  forall d, P d.
Proof.
  fix IH 1. intros [subdirs files]. apply H.
  revert subdirs. fix IHl 1. intros [|[name sub] l].
  - constructor.
  - constructor; [apply IH|apply IHl].
Qed.

Section Checks.

Variable fs : filesys.
Variable out : str.

Lemma do_check_heap (pats : list str) (c : check) (w : world) :
  w_heap (fst (do_check fs out pats c w)) = w_heap w.
Proof.
  destruct c as [p|p]; simpl; destruct (any_match p pats); try reflexivity.
  rewrite run_bind. simpl. rewrite write_entry_run.
  destruct (read_text fs p); reflexivity.
Qed.

Lemma for_each_checks_heap (pats : list str) (cs : list check) (w : world) :
  w_heap (fst (for_each cs (do_check fs out pats) w)) = w_heap w.
Proof.
  revert w. induction cs as [|c cs IH]; intros w; simpl; [reflexivity|].
  rewrite run_bind. pose proof (do_check_heap pats c w) as Hc.
  destruct (do_check fs out pats c w) as [w1 [[]|e]]; simpl in *; [|assumption].
  rewrite IH. assumption.
Qed.

Lemma heap_list_eq (w w' : world) (l : loc) :
  w_heap w' = w_heap w -> heap_list w' l = heap_list w l.
Proof. unfold heap_list. intros ->. reflexivity. Qed.

Lemma for_each_cdirs_ok (pats : list str) (g : str -> str) (names : list str) (w : world) :
  snd (for_each (List.map (fun n => CDir (g n)) names) (do_check fs out pats) w) = Ok tt.
Proof.
  revert w. induction names as [|n names IH]; intros w; simpl; [reflexivity|].
  rewrite run_bind. destruct (any_match (g n) pats); simpl; apply IH.
Qed.

(** The list comprehension over [dirs]. *)
Lemma filter_dirs_run (patterns : loc) (root : str) (names : list str) (w : world) :
  let pats := heap_list w patterns in
  filterM (fun d => ignored ← is_ignored (path_join root d) patterns;
                    mret (negb ignored)) names w =
  (fst (for_each (List.map (fun n => CDir (path_join root n)) names)
          (do_check fs out pats) w),
   Ok (List.filter (fun n => negb (any_match (path_join root n) pats)) names)).
Proof.
  simpl. revert w. induction names as [|n names IH]; intros w; simpl; [reflexivity|].
  rewrite !run_bind, is_ignored_run.
  destruct (any_match (path_join root n) (heap_list w patterns)) eqn:E; simpl.
  - rewrite run_bind, IH. reflexivity.
  - rewrite run_bind, IH. reflexivity.
Qed.

Lemma files_loop_run (patterns : loc) (g : str -> str) (files : list str) (w : world) :
  for_each files (fun file =>
    ignored ← is_ignored (g file) patterns;
    if (ignored : bool) then mret tt else write_entry fs out (g file)) w =
  for_each (List.map (fun f => CFile (g f)) files)
    (do_check fs out (heap_list w patterns)) w.
Proof.
  remember (heap_list w patterns) as pats eqn:Hp.
  revert w Hp. induction files as [|f files IH]; intros w Hp; [reflexivity|].
  cbn [for_each List.map]. rewrite !run_bind, is_ignored_run, <- Hp.
  cbn [do_check]. destruct (any_match (g f) pats) eqn:E.
  - rewrite !run_ret. apply IH. assumption.
  - rewrite run_bind. unfold print at 1. cbn [fst snd].
    pose proof (do_check_heap pats (CFile (g f)) w) as Hh.
    cbn [do_check] in Hh. rewrite E, run_bind in Hh. unfold print in Hh.
    destruct (write_entry fs out (g f) (set_stdout (w_stdout w ++ [g f]) w))
      as [w1 [[]|e]]; [|reflexivity].
    apply IH. rewrite Hp. symmetry. apply heap_list_eq. assumption.
Qed.

(** C2 rests on this: [os.walk] with the body of the loop is the sequence of
    the checks of [walk_checks]. *)
Lemma walk_run (patterns : loc) (d : dir) :
  forall (root : str) (w : world),
    walk fs patterns out root d w =
    for_each (walk_checks (heap_list w patterns) root d)
      (do_check fs out (heap_list w patterns)) w.
Proof.
  induction d as [subdirs files IHd] using dir_ind. intros root w.
  cbn [walk walk_checks].
  remember (heap_list w patterns) as pats eqn:Hp.
  set (cd := List.map (fun n => CDir (path_join root n)) (List.map fst subdirs)).
  set (cf := List.map (fun f => CFile (path_join root f)) files).
  set (dirs := List.filter (fun n => negb (any_match (path_join root n) pats))
                 (List.map fst subdirs)).
  rewrite run_bind, filter_dirs_run, <- Hp. fold cd dirs.
  rewrite (for_each_app cd), (run_bind (for_each cd _)).
  pose proof (for_each_cdirs_ok pats (path_join root) (List.map fst subdirs) w) as Hok.
  pose proof (for_each_checks_heap pats cd w) as Hh1. fold cd in Hok.
  destruct (for_each cd (do_check fs out pats) w) as [w1 r1].
  simpl in Hok, Hh1. subst r1. cbn [fst].
  assert (Hp1 : pats = heap_list w1 patterns)
    by (rewrite Hp; symmetry; apply heap_list_eq; assumption).
  rewrite (for_each_app cf), !(run_bind (for_each _ _)).
  rewrite (files_loop_run patterns (path_join root) files w1), <- Hp1. fold cf.
  pose proof (for_each_checks_heap pats cf w1) as Hh2.
  destruct (for_each cf (do_check fs out pats) w1) as [w2 [[]|e]]; [|reflexivity].
  simpl in Hh2.
  assert (Hp2 : pats = heap_list w2 patterns)
    by (rewrite Hp1; symmetry; apply heap_list_eq; assumption).
  clear Hp Hp1 Hh1 Hh2 w w1. clearbody dirs. clear cd cf.
  revert w2 Hp2.
  induction IHd as [|[name sub] l Hsub _ IHl]; intros w Hp; [reflexivity|].
  rewrite for_each_app, !run_bind. simpl in Hsub.
  destruct (existsb (str_eqb name) dirs).
  - rewrite Hsub, <- Hp.
    pose proof (for_each_checks_heap pats (walk_checks pats (path_join root name) sub) w) as Hh.
    destruct (for_each (walk_checks pats (path_join root name) sub)
                (do_check fs out pats) w) as [w1 [[]|e]]; [|reflexivity].
    apply IHl. rewrite Hp. symmetry. apply heap_list_eq. assumption.
  - simpl. apply IHl. assumption.
Qed.

End Checks.

(** ** Pruning *)

Lemma str_eqb_eq (a b : str) : str_eqb a b = true <-> a = b.
Proof.
  revert b. induction a as [|x a IH]; intros [|y b]; simpl; try (split; congruence).
  rewrite andb_true_iff, N.eqb_eq, IH. split; [intros [-> ->]; reflexivity|].
  intros H. injection H as -> ->. split; reflexivity.
Qed.

Lemma existsb_filter (P : str -> bool) (name : str) (names : list str) :
  existsb (str_eqb name) (List.filter P names) = true -> P name = true.
Proof.
  induction names as [|n names IH]; simpl; [discriminate|].
  destruct (P n) eqn:E; simpl; [|assumption].
  intros H. apply orb_true_iff in H as [H|H]; [|apply IH; assumption].
  apply str_eqb_eq in H. subst n. assumption.
Qed.

Lemma walk_checks_prune (pats : list str) (d : dir) :
  forall root : str,
    walk_checks pats root (prune pats root d) = walk_checks pats root d.
Proof.
  induction d as [subdirs files IHd] using dir_ind. intros root.
  cbn [prune walk_checks].
  set (each := fix each (l : list (str * dir)) : list (str * dir) :=
         match l with
         | [] => []
         | (name, sub) :: l' =>
             (name, if any_match (path_join root name) pats then Dir [] []
                    else prune pats (path_join root name) sub) :: each l'
         end).
  assert (Hnames : List.map fst (each subdirs) = List.map fst subdirs).
  { clear IHd. induction subdirs as [|[name sub] l IH]; simpl; [reflexivity|].
    rewrite IH. reflexivity. }
  rewrite Hnames. f_equal. f_equal. clear Hnames.
  generalize (List.map fst subdirs) as names. intros names.
  induction IHd as [|[name sub] l Hsub _ IHl]; [reflexivity|].
  simpl in Hsub. cbn [each]. rewrite IHl. f_equal.
  destruct (existsb (str_eqb name)
              (List.filter (fun n => negb (any_match (path_join root n) pats)) names)) eqn:E;
    [|reflexivity].
  apply (existsb_filter (fun n => negb (any_match (path_join root n) pats))) in E.
  apply negb_true_iff in E. rewrite E. apply Hsub.
Qed.

(** C2. The walk over a tree is the walk over the tree in which every
    subdirectory whose full path the filter excludes is empty: the excluded
    subdirectory is dropped from [dirs] before the walk goes down, and what
    lies beneath it is never listed, checked, read or written. *)
Theorem walk_prunes (fs : filesys) (patterns : loc) (out root : str) (d : dir) (w : world) :
  walk fs patterns out root d w =
  walk fs patterns out root (prune (heap_list w patterns) root d) w.
Proof.
  rewrite !walk_run, walk_checks_prune. reflexivity.
Qed.

(** ** What the checks write *)

Section Written.

Variable fs : filesys.
Variable out : str.

Lemma do_check_run (pats : list str) (c : check) (w : world) :
  do_check fs out pats c w =
  match c with
  | CDir p => if any_match p pats then (w, Ok tt)
              else (set_stdout (w_stdout w ++ [p]) w, Ok tt)
  | CFile p => if any_match p pats then (w, Ok tt)
               else write_entry fs out p (set_stdout (w_stdout w ++ [p]) w)
  end.
Proof. destruct c as [p|p]; simpl; destruct (any_match p pats); reflexivity. Qed.

Lemma checks_disk (pats : list str) (cs : list check) :
  forall (w : world) (old : str),
    w_disk w !! out = Some old ->
    w_disk (fst (for_each cs (do_check fs out pats) w)) =
      <[out := old ++ fst (emit fs (kept pats cs))]> (w_disk w) /\
    snd (for_each cs (do_check fs out pats) w) = snd (emit fs (kept pats cs)).
Proof.
  induction cs as [|c cs IH]; intros w old Hold.
  - simpl. rewrite app_nil_r, insert_id by assumption. split; reflexivity.
  - cbn [for_each kept]. rewrite run_bind, do_check_run.
    destruct c as [p|p]; destruct (any_match p pats) eqn:E.
    + apply IH. assumption.
    + apply (IH (set_stdout _ w)). assumption.
    + apply IH. assumption.
    + rewrite write_entry_run. cbv zeta. cbn [emit].
      change (w_disk (set_stdout (w_stdout w ++ [p]) w)) with (w_disk w).
      rewrite Hold. change (default [] (Some old)) with old.
      destruct (read_text fs p) as [content|e] eqn:Er.
      * destruct (emit fs (kept pats cs)) as [text r] eqn:Ee. cbn [fst snd].
        match goal with |- context [for_each cs _ ?w1] =>
          destruct (IH w1 (old ++ entry p content)) as [Hd Hr] end.
        { apply lookup_insert_eq. }
        cbn [fst snd] in Hd, Hr. rewrite Hd, Hr.
        change (w_disk (set_disk ?d _)) with d.
        rewrite insert_insert_eq, <- app_assoc. split; reflexivity.
      * split; reflexivity.
Qed.

End Written.

(** ** Loading the ignore file *)

Lemma alter_fresh (f : list str -> list str) (h : list (list str)) (v : list str) :
  alter f (length h) (h ++ [v]) = h ++ [f v].
Proof.
  rewrite <- (Nat.add_0_r (length h)) at 1. rewrite alter_app_r. reflexivity.
Qed.

Lemma is_pattern_line_eq (line : str) :
  negb (str_eqb line []) && negb (startswith line [ch_hash]) = is_pattern_line line.
Proof.
  destruct line as [|c line]; simpl; [reflexivity|].
  destruct (c =? ch_hash); destruct line; reflexivity.
Qed.

Section Loading.

Variable fs : filesys.

(** The loop over the lines appends the kept lines to the list. *)
Lemma append_loop_run (h : list (list str)) (lines : list str) :
  forall (v : list str) (w : world),
    w_heap w = h ++ [v] ->
    for_each lines (fun line =>
      let line := strip line in
      if negb (str_eqb line []) && negb (startswith line [ch_hash])
      then list_append (length h) line
      else mret tt) w =
    (set_heap (h ++ [v ++ List.filter is_pattern_line (List.map strip lines)]) w, Ok tt).
Proof.
  induction lines as [|line lines IH]; intros v w Hw.
  - simpl. rewrite app_nil_r, <- Hw. destruct w; reflexivity.
  - cbn [for_each List.map List.filter]. rewrite run_bind. cbv zeta.
    rewrite is_pattern_line_eq.
    destruct (is_pattern_line (strip line)).
    + unfold list_append at 1. rewrite Hw, alter_fresh.
      rewrite (IH (v ++ [strip line])) by reflexivity.
      rewrite <- app_assoc. reflexivity.
    + rewrite run_ret. apply IH. assumption.
Qed.

Lemma read_gitignore_run (path : str) (w : world) :
  read_gitignore fs path w =
  (set_opened (w_opened w ++ gitignore_log fs path)
     (set_heap (w_heap w ++ [match gitignore_patterns fs path with
                             | Ok gi => gi
                             | Raise _ => []
                             end]) w),
   match gitignore_patterns fs path with
   | Ok _ => Ok (length (w_heap w))
   | Raise e => Raise e
   end).
Proof.
  unfold read_gitignore, gitignore_patterns, gitignore_log, path_exists.
  rewrite run_bind. unfold new_list at 1. rewrite run_bind.
  destruct (fs_file fs path) as [| |content] eqn:Ef.
  - rewrite run_ret, run_ret. unfold set_opened, set_heap. simpl.
    rewrite app_nil_r. reflexivity.
  - rewrite run_bind. unfold open_read. rewrite Ef. reflexivity.
  - rewrite run_bind. unfold open_read at 1. rewrite Ef. cbn [decode].
    destruct (utf8_decode content) as [text|]; [|reflexivity].
    rewrite (append_loop_run (w_heap w) _ []) by reflexivity.
    rewrite run_ret. reflexivity.
Qed.

(** C7. [read_gitignore] returns a new, empty list, without an error and
    without opening anything, when the ignore file does not exist.  When the
    file exists and its bytes decode (the text mode's newline translation
    applied), the new list holds, in the order of the file, the lines that
    are not empty after [strip()] and do not begin with [#], each stripped,
    and nothing else is done to a line. *)
Theorem read_gitignore_spec (path : str) (w : world) :
  match fs_file fs path with
  | Missing =>
      read_gitignore fs path w =
        (set_heap (w_heap w ++ [[]]) w, Ok (length (w_heap w))) /\
      heap_list (fst (read_gitignore fs path w)) (length (w_heap w)) = []
  | Unreadable => snd (read_gitignore fs path w) = Raise (OSError path)
  | Data content =>
      match utf8_decode content with
      | Some text =>
          snd (read_gitignore fs path w) = Ok (length (w_heap w)) /\
          heap_list (fst (read_gitignore fs path w)) (length (w_heap w)) =
            List.filter (fun line => negb (str_eqb line [])
                                     && negb (startswith line [ch_hash]))
              (List.map strip (text_lines (universal_newlines text)))
      | None => snd (read_gitignore fs path w) = Raise UnicodeDecodeError
      end
  end.
Proof.
  rewrite read_gitignore_run. unfold gitignore_patterns, gitignore_log, path_exists.
  destruct (fs_file fs path) as [| |content].
  - split.
    + unfold set_opened, set_heap. simpl. rewrite app_nil_r. reflexivity.
    + unfold heap_list. simpl. rewrite list_lookup_middle by reflexivity. reflexivity.
  - reflexivity.
  - destruct (utf8_decode content) as [text|]; [|reflexivity].
    split; [reflexivity|].
    unfold heap_list. simpl. rewrite list_lookup_middle by reflexivity. simpl.
    unfold pattern_lines. apply List.filter_ext. intros line.
    symmetry. apply is_pattern_line_eq.
Qed.

End Loading.

(** ** The whole of [write_files_to_output] *)

Section Run.

Variable fs : filesys.

Lemma resolve_arg_run (arg : option loc) (w : world) :
  match arg with
  | None => new_list []
  | Some l => mret l
  end w = (set_heap (w_heap w ++ arg_alloc arg) w, Ok (arg_loc w arg)).
Proof.
  destruct arg as [l|]; [|reflexivity].
  rewrite run_ret. simpl. rewrite app_nil_r. destruct w; reflexivity.
Qed.

Lemma wildcard_loop_run (out : str) (patterns : loc) (files : list str) (w : world) :
  for_each files (fun wildcard_file =>
    ignored ← is_ignored wildcard_file patterns;
    if (ignored : bool) then mret tt else write_entry fs out wildcard_file) w =
  for_each (List.map CFile files) (do_check fs out (heap_list w patterns)) w.
Proof. exact (files_loop_run fs out patterns (fun x => x) files w). Qed.

Lemma write_files_to_output_run (root out : str) (a wl : option loc) (w : world) :
  arg_valid w a -> arg_valid w wl ->
  write_files_to_output fs root out a wl w =
  match gitignore_patterns fs (lit ".gitignore") with
  | Ok gi =>
      let pats := gi ++ arg_list w a in
      for_each (all_checks fs pats (arg_list w wl) root) (do_check fs out pats)
        (start_world fs out a wl pats w)
  | Raise e =>
      (set_opened (w_opened w ++ gitignore_log fs (lit ".gitignore"))
         (set_heap (w_heap w ++ arg_alloc a ++ arg_alloc wl ++ [[]]) w),
       Raise e)
  end.
Proof.
  intros Ha Hwl. unfold write_files_to_output.
  rewrite run_bind, resolve_arg_run. rewrite run_bind, resolve_arg_run.
  rewrite run_bind, read_gitignore_run.
  destruct (gitignore_patterns fs (lit ".gitignore")) as [gi|e].
  - cbn [w_heap set_heap w_opened set_opened w_disk w_stdout].
    set (h2 := (w_heap w ++ arg_alloc a) ++ arg_alloc wl).
    assert (Hla : default [] ((h2 ++ [gi]) !! arg_loc w a) = arg_list w a).
    { subst h2. destruct a as [la|]; simpl in *.
      - rewrite <- !app_assoc, lookup_app_l by assumption. reflexivity.
      - rewrite <- !app_assoc. simpl. rewrite list_lookup_middle by reflexivity.
        reflexivity. }
    assert (Hlw : forall pats, default [] ((h2 ++ [pats])
                     !! arg_loc (set_heap (w_heap w ++ arg_alloc a) w) wl) = arg_list w wl).
    { intros pats. subst h2. destruct wl as [lw|]; simpl in *.
      - rewrite <- !app_assoc, lookup_app_l by assumption. reflexivity.
      - rewrite <- (app_assoc (w_heap w ++ arg_alloc a)). simpl.
        rewrite list_lookup_middle by reflexivity. reflexivity. }
    rewrite run_bind. unfold list_extend. rewrite run_bind. unfold get_list at 1.
    cbn [w_heap set_heap w_opened set_opened w_disk w_stdout]. rewrite Hla.
    unfold list_extend_with. cbn [w_heap set_heap w_opened set_opened w_disk w_stdout].
    rewrite alter_fresh.
    rewrite run_bind. unfold open_write.
    cbn [w_heap set_heap set_disk w_opened set_opened w_disk w_stdout].
    rewrite run_bind. unfold get_list.
    cbn [w_heap set_heap set_disk w_opened set_opened w_disk w_stdout]. rewrite Hlw.
    set (pats := gi ++ arg_list w a).
    match goal with |- _ ?w1 = _ =>
      replace w1 with (start_world fs out a wl pats w)
        by (unfold start_world, set_disk, set_heap, set_opened; simpl;
            subst h2; rewrite <- !app_assoc; reflexivity) end.
    assert (Hp : forall w', w_heap w' = w_heap (start_world fs out a wl pats w) ->
                 heap_list w' (length h2) = pats).
    { intros w' Hw'. unfold heap_list. rewrite Hw'. unfold start_world. simpl.
      rewrite !app_assoc. fold h2.
      rewrite list_lookup_middle by reflexivity. reflexivity. }
    rewrite run_bind, wildcard_loop_run, Hp by reflexivity.
    unfold all_checks. rewrite for_each_app, run_bind.
    pose proof (for_each_checks_heap fs out pats (List.map CFile (arg_list w wl))
                  (start_world fs out a wl pats w)) as Hh.
    destruct (for_each (List.map CFile (arg_list w wl)) (do_check fs out pats)
                (start_world fs out a wl pats w)) as [w1 [[]|e]]; [|reflexivity].
    destruct (fs_tree fs root) as [d|]; [|reflexivity].
    rewrite walk_run, Hp by assumption. reflexivity.
  - cbn [w_heap set_heap w_opened set_opened w_disk w_stdout].
    rewrite <- !app_assoc. reflexivity.
Qed.

End Run.

(** ** The text of the output *)

Section Output.

Variable fs : filesys.

Lemma kept_app (pats : list str) (cs1 cs2 : list check) :
  kept pats (cs1 ++ cs2) = kept pats cs1 ++ kept pats cs2.
Proof.
  induction cs1 as [|[p|p] cs1 IH]; simpl; [reflexivity|assumption|].
  destruct (any_match p pats); simpl; rewrite IH; reflexivity.
Qed.

Lemma kept_cfiles (pats : list str) (ps : list str) :
  kept pats (List.map CFile ps) = List.filter (fun p => negb (any_match p pats)) ps.
Proof.
  induction ps as [|p ps IH]; simpl; [reflexivity|].
  destruct (any_match p pats); simpl; rewrite IH; reflexivity.
Qed.

(** A loop that ends normally has written the entries of all its files. *)
Lemma emit_ok (ps : list str) :
  snd (emit fs ps) = Ok tt ->
  fst (emit fs ps) = concat (List.map (entry_of fs) ps) /\
  forall p, In p ps -> exists content, read_text fs p = Ok content.
Proof.
  induction ps as [|p ps IH]; simpl.
  - intros _. split; [reflexivity|]. intros p [].
  - unfold entry_of at 1. destruct (read_text fs p) as [content|e] eqn:Er; [|discriminate].
    destruct (emit fs ps) as [text r]. simpl. intros Hr.
    destruct (IH Hr) as [Ht Hall]. simpl in Ht. subst text. split; [reflexivity|].
    intros q [<-|Hq]; [exists content; assumption|apply Hall; assumption].
Qed.


Lemma concat_map_in {A} (f : A -> str) (x : A) (l : list A) :
  In x l -> exists before after, concat (List.map f l) = before ++ f x ++ after.
Proof.
  intros H. apply in_split in H as (l1 & l2 & ->).
  exists (concat (List.map f l1)), (concat (List.map f l2)).
  rewrite List.map_app, concat_app. reflexivity.
Qed.

End Output.

(** ** The claims about a whole run *)

Section Claims.

Variable fs : filesys.

Lemma run_disk (root out : str) (a wl : option loc) (w : world) (gi : list str) :
  arg_valid w a -> arg_valid w wl ->
  gitignore_patterns fs (lit ".gitignore") = Ok gi ->
  let pats := gi ++ arg_list w a in
  let ps := kept pats (all_checks fs pats (arg_list w wl) root) in
  w_disk (fst (write_files_to_output fs root out a wl w)) =
    <[out := fst (emit fs ps)]> (w_disk w) /\
  snd (write_files_to_output fs root out a wl w) = snd (emit fs ps).
Proof.
  intros Ha Hwl Hgi pats ps.
  rewrite write_files_to_output_run, Hgi by assumption. cbv zeta. fold pats.
  destruct (checks_disk fs out pats (all_checks fs pats (arg_list w wl) root)
              (start_world fs out a wl pats w) []) as [Hd Hr].
  { apply lookup_insert_eq. }
  fold ps in Hd, Hr. rewrite Hd, Hr. split; [|reflexivity].
  simpl. apply insert_insert_eq.
Qed.


(** C6. In a run that ends normally, the output file holds the
    concatenation, over the files that passed the filter (wildcard files
    first, then the files of the walk), of one unit per file: the path, one
    newline, the text [read_file_contents] returns for the file, unchanged,
    and two newlines. *)
Theorem output_is_entries (root out : str) (a wl : option loc) (w : world)
    (gi : list str) :
  arg_valid w a -> arg_valid w wl ->
  gitignore_patterns fs (lit ".gitignore") = Ok gi ->
  snd (write_files_to_output fs root out a wl w) = Ok tt ->
  let pats := gi ++ arg_list w a in
  let ps := kept pats (all_checks fs pats (arg_list w wl) root) in
  w_disk (fst (write_files_to_output fs root out a wl w)) !! out =
    Some (concat (List.map (entry_of fs) ps)) /\
  forall p, In p ps ->
    exists content,
      (forall w', snd (read_file_contents fs p w') = Ok content) /\
      entry_of fs p = p ++ [ch_nl] ++ content ++ [ch_nl; ch_nl].
Proof.
  intros Ha Hwl Hgi Hok pats ps.
  destruct (run_disk root out a wl w gi Ha Hwl Hgi) as [Hd Hr].
  fold pats ps in Hd, Hr. rewrite Hr in Hok.
  destruct (emit_ok fs ps Hok) as [Ht Hall]. split.
  - rewrite Hd, Ht. apply lookup_insert_eq.
  - intros p Hp. destruct (Hall p Hp) as [content Hc]. exists content. split.
    + intros w'. rewrite read_file_contents_run. assumption.
    + unfold entry_of, entry. rewrite Hc. reflexivity.
Qed.


(** C10. [write_files_to_output] leaves every list object that existed
    before the call as it was, whether the run ends normally or not: the
    list of patterns it extends is the new one [read_gitignore] made.  So the
    caller's [additional_patterns] and [wildcard_files] hold the same
    elements afterwards. *)
Theorem arguments_unchanged (root out : str) (a wl : option loc) (w : world) :
  arg_valid w a -> arg_valid w wl ->
  take (length (w_heap w)) (w_heap (fst (write_files_to_output fs root out a wl w)))
    = w_heap w /\
  arg_list (fst (write_files_to_output fs root out a wl w)) a = arg_list w a /\
  arg_list (fst (write_files_to_output fs root out a wl w)) wl = arg_list w wl.
Proof.
  intros Ha Hwl.
  assert (Hh : exists ext, w_heap (fst (write_files_to_output fs root out a wl w))
                           = w_heap w ++ ext).
  { rewrite write_files_to_output_run by assumption.
    destruct (gitignore_patterns fs (lit ".gitignore")) as [gi|e].
    - cbv zeta. rewrite for_each_checks_heap. eexists. reflexivity.
    - eexists. reflexivity. }
  destruct Hh as [ext Hh].
  assert (Harg : forall arg, arg_valid w arg ->
            arg_list (fst (write_files_to_output fs root out a wl w)) arg = arg_list w arg).
  { intros [l|] Hv; [|reflexivity]. unfold arg_list, heap_list. rewrite Hh.
    simpl in Hv. rewrite lookup_app_l by assumption. reflexivity. }
  split; [|split; apply Harg; assumption].
  rewrite Hh. apply take_app_length.
Qed.

End Claims.

(** ** The script *)

Section Main.

Variable fs : filesys.

Lemma extend_loop_run {A} (h : list (list str)) (g : A -> list str) (l : list A) :
  forall (v : list str) (w : world),
    w_heap w = h ++ [v] ->
    for_each l (fun x => list_extend_with (length h) (g x)) w =
    (set_heap (h ++ [v ++ concat (List.map g l)]) w, Ok tt).
Proof.
  induction l as [|x l IH]; intros v w Hw.
  - simpl. rewrite app_nil_r, <- Hw. destruct w; reflexivity.
  - cbn [for_each List.map concat]. rewrite run_bind.
    unfold list_extend_with at 1. rewrite Hw, alter_fresh.
    rewrite (IH (v ++ g x)) by reflexivity.
    rewrite <- app_assoc. reflexivity.
Qed.

(** The world [main] hands to [write_files_to_output]: the list of the
    wildcard files and the list of the built-in patterns are new. *)
Lemma main_run (root : str) (wpats : list str) (out : str) (w : world) :
  main fs root wpats out w =
  write_files_to_output fs root out
    (Some (S (length (w_heap w)))) (Some (length (w_heap w)))
    (set_heap (w_heap w ++ [concat (List.map (fs_glob fs) wpats); builtin_patterns]) w).
Proof.
  unfold main. rewrite run_bind. unfold new_list at 1. rewrite run_bind.
  rewrite (extend_loop_run (w_heap w) (fs_glob fs) wpats []) by reflexivity.
  rewrite run_bind. unfold new_list. cbn [w_heap set_heap app].
  rewrite length_app, Nat.add_1_r, <- app_assoc. reflexivity.
Qed.

Lemma main_args (wild : list str) (w : world) :
  let w2 := set_heap (w_heap w ++ [wild; builtin_patterns]) w in
  arg_valid w2 (Some (S (length (w_heap w)))) /\
  arg_valid w2 (Some (length (w_heap w))) /\
  arg_list w2 (Some (S (length (w_heap w)))) = builtin_patterns /\
  arg_list w2 (Some (length (w_heap w))) = wild.
Proof.
  cbv zeta. split; [simpl; rewrite length_app; simpl; lia|].
  split; [simpl; rewrite length_app; simpl; lia|]. split.
  - unfold arg_list, heap_list. cbn [w_heap set_heap].
    replace (w_heap w ++ [wild; builtin_patterns])
      with ((w_heap w ++ [wild]) ++ [builtin_patterns])
      by (rewrite <- app_assoc; reflexivity).
    rewrite list_lookup_middle; [reflexivity|].
    rewrite length_app. simpl. lia.
  - unfold arg_list, heap_list. cbn [w_heap set_heap].
    rewrite list_lookup_middle by reflexivity. reflexivity.
Qed.

(** C8. Whatever the root directory, the wildcard patterns and the output
    path given on the command line, the patterns of a run are those loaded
    from the file [.gitignore] (a relative path, so of the current working
    directory) followed by the built-in list: every call of [is_ignored] of
    the run is made with that list. *)
Theorem effective_patterns (gi : list str) :
  gitignore_patterns fs (lit ".gitignore") = Ok gi ->
  forall (root : str) (wpats : list str) (out : str) (w : world),
    let pats := gi ++ builtin_patterns in
    let wild := concat (List.map (fs_glob fs) wpats) in
    let start := start_world fs out (Some (S (length (w_heap w))))
                   (Some (length (w_heap w))) pats
                   (set_heap (w_heap w ++ [wild; builtin_patterns]) w) in
    heap_list start (S (S (length (w_heap w)))) = pats /\
    main fs root wpats out w =
      for_each (all_checks fs pats wild root) (do_check fs out pats) start.
Proof.
  intros Hgi root wpats out w pats wild start.
  destruct (main_args wild w) as (Ha & Hwl & Hla & Hlw). split.
  - unfold heap_list, start, start_world. simpl.
    replace (w_heap w ++ [wild; builtin_patterns])
      with ((w_heap w ++ [wild]) ++ [builtin_patterns])
      by (rewrite <- app_assoc; reflexivity).
    rewrite list_lookup_middle; [reflexivity|].
    rewrite !length_app. simpl. lia.
  - rewrite main_run, write_files_to_output_run, Hgi by assumption.
    cbv zeta. fold wild. rewrite Hla, Hlw. reflexivity.
Qed.

(** C5. In a run of the script that ends normally, the output is the
    entries of the wildcard files that pass the filter, in the order of the
    wildcard list (the expansions of the patterns, in the order of the
    arguments, repeated paths kept), followed by the entries of the walk; a
    path that is in the wildcard list, passes the filter and is met by the
    walk has its entry in both parts. *)
Theorem wildcards_first (gi : list str) (root : str) (wpats : list str)
    (out : str) (w : world) :
  gitignore_patterns fs (lit ".gitignore") = Ok gi ->
  snd (main fs root wpats out w) = Ok tt ->
  let pats := gi ++ builtin_patterns in
  let wild := concat (List.map (fs_glob fs) wpats) in
  let from_wildcards :=
    concat (List.map (entry_of fs)
              (List.filter (fun p => negb (any_match p pats)) wild)) in
  let walked := match fs_tree fs root with
                | Some d => kept pats (walk_checks pats root d)
                | None => []
                end in
  let from_walk := concat (List.map (entry_of fs) walked) in
  w_disk (fst (main fs root wpats out w)) !! out = Some (from_wildcards ++ from_walk) /\
  forall p, In p wild -> any_match p pats = false -> In p walked ->
    exists t1 t2 t3 t4,
      from_wildcards = t1 ++ entry_of fs p ++ t2 /\
      from_walk = t3 ++ entry_of fs p ++ t4.
Proof.
  intros Hgi Hok pats wild from_wildcards walked from_walk.
  destruct (main_args wild w) as (Ha & Hwl & Hla & Hlw).
  rewrite main_run in Hok |- *. fold wild in Hok |- *.
  destruct (run_disk fs root out _ _ _ gi Ha Hwl Hgi) as [Hd Hr].
  cbv zeta in Hd, Hr. rewrite Hla, Hlw in Hd, Hr. fold pats in Hd, Hr.
  rewrite Hr in Hok. destruct (emit_ok fs _ Hok) as [Ht _].
  split.
  - rewrite Hd, lookup_insert_eq, Ht. unfold all_checks. rewrite kept_app, kept_cfiles, List.map_app, concat_app.
    f_equal. f_equal. unfold from_walk, walked.
    destruct (fs_tree fs root); reflexivity.
  - intros p Hp Hnot Hwalk.
    destruct (concat_map_in (entry_of fs) p
                (List.filter (fun p => negb (any_match p pats)) wild)) as (t1 & t2 & H1).
    { apply List.filter_In. split; [assumption|]. rewrite Hnot. reflexivity. }
    destruct (concat_map_in (entry_of fs) p walked Hwalk) as (t3 & t4 & H2).
    exists t1, t2, t3, t4. split; assumption.
Qed.

End Main.

(** ** The claims on the two file systems *)

Lemma example_gitignore_loaded :
  gitignore_patterns example_fs (lit ".gitignore") = Ok example_gitignore.
Proof. vm_compute. reflexivity. Defined.

Lemma example_args_valid :
  arg_valid example_world (Some 0%nat) /\ arg_valid example_world (Some 1%nat).
Proof. simpl. split; lia. Defined.

(** The pruned directory of the specification: nothing beneath
    [node_modules] is checked, opened or written. *)
Example node_modules_pruned :
  walk_checks (example_gitignore ++ builtin_patterns) (lit ".")
    (Dir [(lit "node_modules", Dir [] [lit "inner.txt"]);
          (lit "sub", Dir [] [lit "latin.txt"])]
       [lit "a.txt"; lit "secret.txt"; lit "b.py"]) =
  [ CDir (lit "./node_modules"); CDir (lit "./sub");
    CFile (lit "./a.txt"); CFile (lit "./secret.txt"); CFile (lit "./b.py");
    CFile (lit "./sub/latin.txt") ] /\
  w_opened (fst (main example_fs (lit ".") [] (lit "output.txt")
                   (world_before [] (lit "output.txt") (lit "OLD")))) =
  [ (lit ".gitignore", UTF8); (lit "./a.txt", UTF8);
    (lit "./sub/latin.txt", UTF8); (lit "./sub/latin.txt", Latin1) ].
Proof. split; vm_compute; reflexivity. Qed.


Lemma example_run_ok :
  snd (write_files_to_output example_fs (lit ".") (lit "output.txt")
         (Some 0%nat) (Some 1%nat) example_world) = Ok tt.
Proof. vm_compute. reflexivity. Defined.

Lemma output_is_entries_witness :
  w_disk (fst (write_files_to_output example_fs (lit ".") (lit "output.txt")
                 (Some 0%nat) (Some 1%nat) example_world))
    !! lit "output.txt" =
  Some (lit "./a.txt" ++ [ch_nl] ++ lit "hello" ++ [ch_nl; ch_nl] ++
        lit "./a.txt" ++ [ch_nl] ++ lit "hello" ++ [ch_nl; ch_nl] ++
        lit "./sub/latin.txt" ++ [ch_nl] ++ [99; 97; 102; 233] ++ [ch_nl; ch_nl]).
Proof.
  rewrite (proj1 (output_is_entries example_fs (lit ".") (lit "output.txt")
                    (Some 0%nat) (Some 1%nat) example_world example_gitignore
                    (proj1 example_args_valid) (proj2 example_args_valid)
                    example_gitignore_loaded example_run_ok)).
  vm_compute. reflexivity.
Defined.

Lemma arguments_unchanged_witness :
  arg_list (fst (write_files_to_output example_fs (lit ".") (lit "output.txt")
                   (Some 0%nat) (Some 1%nat) example_world)) (Some 0%nat)
    = builtin_patterns /\
  arg_list (fst (write_files_to_output example_fs (lit ".") (lit "output.txt")
                   (Some 0%nat) (Some 1%nat) example_world)) (Some 1%nat)
    = [lit "./a.txt"; lit "./b.py"].
Proof.
  destruct (arguments_unchanged example_fs (lit ".") (lit "output.txt")
              (Some 0%nat) (Some 1%nat) example_world
              (proj1 example_args_valid) (proj2 example_args_valid))
    as (_ & Ha & Hwl).
  split; [exact Ha|exact Hwl].
Defined.

Lemma effective_patterns_witness :
  main example_fs (lit ".") [lit "./*.txt"; lit "./sub/*"] (lit "output.txt")
    (world_of_lists []) =
  for_each
    (all_checks example_fs (example_gitignore ++ builtin_patterns)
       [lit "./a.txt"; lit "./secret.txt"; lit "./sub/latin.txt"] (lit "."))
    (do_check example_fs (lit "output.txt") (example_gitignore ++ builtin_patterns))
    (start_world example_fs (lit "output.txt") (Some 1%nat) (Some 0%nat)
       (example_gitignore ++ builtin_patterns)
       (world_of_lists [[lit "./a.txt"; lit "./secret.txt"; lit "./sub/latin.txt"];
                        builtin_patterns])).
Proof.
  exact (proj2 (effective_patterns example_fs example_gitignore
                  example_gitignore_loaded (lit ".") [lit "./*.txt"; lit "./sub/*"]
                  (lit "output.txt") (world_of_lists []))).
Defined.

Lemma example_main_ok :
  snd (main example_fs (lit ".") [lit "./*.txt"; lit "./sub/*"] (lit "output.txt")
         (world_of_lists [])) = Ok tt.
Proof. vm_compute. reflexivity. Defined.

Lemma wildcards_first_witness :
  w_disk (fst (main example_fs (lit ".") [lit "./*.txt"; lit "./sub/*"]
                 (lit "output.txt") (world_of_lists [])))
    !! lit "output.txt" =
  Some ((entry (lit "./a.txt") (lit "hello") ++
         entry (lit "./sub/latin.txt") [99; 97; 102; 233]) ++
        (entry (lit "./a.txt") (lit "hello") ++
         entry (lit "./sub/latin.txt") [99; 97; 102; 233])).
Proof.
  rewrite (proj1 (wildcards_first example_fs example_gitignore (lit ".")
                    [lit "./*.txt"; lit "./sub/*"] (lit "output.txt")
                    (world_of_lists []) example_gitignore_loaded example_main_ok)).
  vm_compute. reflexivity.
Defined.





(** * More properties of the code *)

(** ** Patterns without wildcards, and patterns that end a path *)

Lemma translate_literal (pat : str) :
  literal pat = true ->
  forall after_star : bool, translate_from after_star O pat = List.map TLit pat.
Proof.
  induction pat as [|c pat IH]; intros Hl b; [reflexivity|].
  simpl in Hl. apply andb_true_iff in Hl as [Hc Hl].
  unfold is_meta in Hc. apply negb_true_iff in Hc.
  apply orb_false_iff in Hc as [Hc Hb]. apply orb_false_iff in Hc as [Hs Hq].
  cbn [translate_from List.map]. rewrite Hs, Hq, Hb, IH by assumption. reflexivity.
Qed.

Lemma re_match_lits (pat s : str) :
  re_match (List.map TLit pat) s = true <-> s = pat.
Proof.
  revert s. induction pat as [|c pat IH]; intros [|x s]; simpl;
    try (split; congruence).
  rewrite andb_true_iff, N.eqb_eq, IH. split; [intros [-> ->]; reflexivity|].
  intros H. injection H as -> ->. split; reflexivity.
Qed.

Lemma re_match_star_iff (ts : list token) (s : str) :
  re_match (TStar :: ts) s = true <->
  exists before after, s = before ++ after /\ re_match ts after = true.
Proof.
  induction s as [|c s IH]; rewrite re_match_star, orb_true_iff.
  - split.
    + intros [H|H]; [exists [], []; split; [reflexivity|assumption]|discriminate].
    + intros (before & after & Heq & H). left.
      destruct before; [|discriminate]. simpl in Heq. subst after. assumption.
  - rewrite IH. split.
    + intros [H|(before & after & -> & H)].
      * exists [], (c :: s). split; [reflexivity|assumption].
      * exists (c :: before), after. split; [reflexivity|assumption].
    + intros (before & after & Heq & H). destruct before as [|x before]; simpl in Heq.
      * subst after. left. assumption.
      * injection Heq as -> ->. right. exists before, after. split; [reflexivity|assumption].
Qed.

Lemma fnmatch_literal (name pat : str) :
  literal pat = true -> (fnmatch name pat = true <-> name = pat).
Proof.
  intros Hl. unfold fnmatch, translate. rewrite translate_literal by assumption.
  apply re_match_lits.
Qed.

(** X1. A pattern with none of [*], [?] and [[] excludes exactly the paths
    equal to it and the paths ending in a slash followed by it; so a
    pattern of several segments such as [prisma/migrations] excludes the
    paths that end in [/prisma/migrations], and nothing is a negation or a
    directory marker as in a real ignore file. *)
Theorem literal_pattern_excludes (path pattern : str) (patterns : loc) (w : world) :
  literal pattern = true ->
  heap_list w patterns = [pattern] ->
  (snd (is_ignored path patterns w) = Ok true <->
   path = pattern \/ exists prefix, path = prefix ++ ch_slash :: pattern).
Proof.
  intros Hl Hh. rewrite is_ignored_run, Hh.
  assert (Hm : any_match path [pattern] = true <->
               path = pattern \/ exists prefix, path = prefix ++ ch_slash :: pattern).
  { rewrite any_match_iff. split.
    - intros (p & [<-|[]] & [H|(prefix & base & -> & H)]).
      + left. apply fnmatch_literal; assumption.
      + right. exists prefix. apply fnmatch_literal in H; [|assumption]. subst base.
        reflexivity.
    - intros H. exists pattern. split; [left; reflexivity|].
      destruct H as [->|[prefix ->]].
      + left. apply fnmatch_literal; [assumption|reflexivity].
      + right. exists prefix, pattern. split; [reflexivity|].
        apply fnmatch_literal; [assumption|reflexivity]. }
  destruct (any_match path [pattern]); simpl.
  - split; [intros _; apply Hm; reflexivity|reflexivity].
  - split; [discriminate|]. intros H. apply Hm in H. discriminate.
Qed.

(** X2. A pattern made of [*] and then characters that are none of [*], [?]
    and [[] (the built-in [*.py], [*.lock], [*-lock.json], ...) excludes
    exactly the paths that end in those characters, in whatever directory:
    the star runs over slashes. *)
Theorem suffix_pattern_excludes (path suffix : str) (patterns : loc) (w : world) :
  literal suffix = true ->
  heap_list w patterns = [ch_star :: suffix] ->
  (snd (is_ignored path patterns w) = Ok true <->
   exists before, path = before ++ suffix).
Proof.
  intros Hl Hh. rewrite is_ignored_run, Hh.
  assert (Hf : forall name, fnmatch name (ch_star :: suffix) = true <->
                            exists before, name = before ++ suffix).
  { intros name. unfold fnmatch, translate. cbn [translate_from N.eqb ch_star Pos.eqb].
    change (ch_star =? ch_star) with true. cbv iota.
    rewrite translate_literal, re_match_star_iff by assumption. split.
    - intros (before & after & -> & H). apply re_match_lits in H. subst after.
      exists before. reflexivity.
    - intros [before ->]. exists before, suffix. split; [reflexivity|].
      apply re_match_lits. reflexivity. }
  assert (Hm : any_match path [ch_star :: suffix] = true <->
               exists before, path = before ++ suffix).
  { rewrite any_match_iff. split.
    - intros (p & [<-|[]] & [H|(prefix & base & -> & H)]).
      + apply Hf. assumption.
      + apply Hf in H as [before ->]. exists (prefix ++ ch_slash :: before).
        rewrite <- app_assoc. reflexivity.
    - intros H. exists (ch_star :: suffix). split; [left; reflexivity|].
      left. apply Hf. assumption. }
  destruct (any_match path [ch_star :: suffix]); simpl.
  - split; [intros _; apply Hm; reflexivity|reflexivity].
  - split; [discriminate|]. intros H. apply Hm in H. discriminate.
Qed.

(** ** The list of patterns *)

Lemma any_match_app (path : str) (l1 l2 : list str) :
  any_match path (l1 ++ l2) = any_match path l1 || any_match path l2.
Proof.
  induction l1 as [|p l1 IH]; simpl; [reflexivity|].
  destruct (fnmatch path p || fnmatch path (ch_star :: ch_slash :: p)); [reflexivity|].
  assumption.
Qed.

Lemma endswith_slash (a : str) :
  endswith a [ch_slash] = true -> exists r, a = r ++ [ch_slash].
Proof.
  unfold endswith. simpl. intros H. exists (rev (tail (rev a))).
  rewrite <- (rev_involutive a) at 1.
  destruct (rev a) as [|x t]; simpl in *; [discriminate|].
  apply andb_true_iff in H as [H _]. apply N.eqb_eq in H. subst x. reflexivity.
Qed.

(** X3. A file or directory whose own name matches a pattern is excluded
    wherever it lies: whatever directory path the name is joined to, the
    joined path is the name itself or ends in a slash and the name. *)
Theorem name_match_excludes (root name pattern : str) (patterns : loc) (w : world) :
  In pattern (heap_list w patterns) ->
  fnmatch name pattern = true ->
  snd (is_ignored (path_join root name) patterns w) = Ok true.
Proof.
  intros Hin Hm. rewrite is_ignored_run.
  assert (H : any_match (path_join root name) (heap_list w patterns) = true).
  { apply any_match_iff. exists pattern. split; [assumption|].
    unfold path_join. destruct (startswith name [ch_slash]); [left; assumption|].
    destruct root as [|c root]; [left; assumption|]. cbn [orb].
    destruct (endswith (c :: root) [ch_slash]) eqn:E.
    - right. apply endswith_slash in E as [r ->]. exists r, name.
      rewrite <- app_assoc. split; [reflexivity|assumption].
    - right. exists (c :: root), name. split; [reflexivity|assumption]. }
  rewrite H. reflexivity.
Qed.

(** X4. Only the set of the patterns counts: two lists with the same
    elements, in any order and with any repetitions, exclude the same
    paths. *)
Theorem pattern_order_irrelevant (path : str) (patterns1 patterns2 : loc) (w : world) :
  (forall p, In p (heap_list w patterns1) <-> In p (heap_list w patterns2)) ->
  snd (is_ignored path patterns1 w) = snd (is_ignored path patterns2 w).
Proof.
  intros Hsame. rewrite !is_ignored_run.
  assert (H : any_match path (heap_list w patterns1)
              = any_match path (heap_list w patterns2)).
  { destruct (any_match path (heap_list w patterns1)) eqn:E1;
      destruct (any_match path (heap_list w patterns2)) eqn:E2; try reflexivity.
    - apply any_match_iff in E1 as (p & Hin & H). apply Hsame in Hin.
      rewrite <- E2. symmetry. apply any_match_iff. exists p. split; assumption.
    - apply any_match_iff in E2 as (p & Hin & H). apply Hsame in Hin.
      rewrite <- E1. apply any_match_iff. exists p. split; assumption. }
  rewrite H. destruct (any_match path (heap_list w patterns2)); reflexivity.
Qed.

Lemma kept_passes (pats : list str) (cs : list check) (p : str) :
  In p (kept pats cs) -> In (CFile p) cs /\ any_match p pats = false.
Proof.
  induction cs as [|[q|q] cs IH]; simpl; [intros []| |].
  - intros H. destruct (IH H). split; [right|]; assumption.
  - destruct (any_match q pats) eqn:E.
    + intros H. destruct (IH H). split; [right|]; assumption.
    + intros [<-|H]; [split; [left; reflexivity|assumption]|].
      destruct (IH H). split; [right|]; assumption.
Qed.

Lemma kept_none (pats : list str) (cs : list check) :
  (forall p, any_match p pats = true) -> kept pats cs = [].
Proof.
  intros Hall. induction cs as [|[q|q] cs IH]; simpl; [reflexivity|assumption|].
  rewrite Hall. assumption.
Qed.

Lemma fnmatch_star (name : str) : fnmatch name [ch_star] = true.
Proof.
  unfold fnmatch. change (translate [ch_star]) with [TStar].
  apply re_match_star_iff. exists name, []. split; [|reflexivity].
  rewrite app_nil_r. reflexivity.
Qed.

Section Patterns.

Variable fs : filesys.

(** X5. The patterns of the ignore file and the additional patterns both
    apply, neither overrides the other: the output file holds text only for
    files that no pattern of the ignore file and no additional pattern
    excludes. *)
Theorem both_pattern_lists_apply (root out : str) (a wl : option loc) (w : world)
    (gi : list str) :
  arg_valid w a -> arg_valid w wl ->
  gitignore_patterns fs (lit ".gitignore") = Ok gi ->
  exists ps,
    w_disk (fst (write_files_to_output fs root out a wl w)) !! out
      = Some (fst (emit fs ps)) /\
    forall p, In p ps ->
      any_match p gi = false /\ any_match p (arg_list w a) = false.
Proof.
  intros Ha Hwl Hgi.
  destruct (run_disk fs root out a wl w gi Ha Hwl Hgi) as [Hd _]. cbv zeta in Hd.
  eexists. split.
  - rewrite Hd. apply lookup_insert_eq.
  - intros p Hp. apply kept_passes in Hp as [_ Hp].
    rewrite any_match_app in Hp. apply orb_false_iff in Hp. assumption.
Qed.

(** X6. A pattern [*], in the ignore file or among the additional patterns,
    excludes every path: the run ends normally and leaves an empty output
    file. *)
Theorem star_pattern_empties_output (root out : str) (a wl : option loc) (w : world)
    (gi : list str) :
  arg_valid w a -> arg_valid w wl ->
  gitignore_patterns fs (lit ".gitignore") = Ok gi ->
  In [ch_star] (gi ++ arg_list w a) ->
  snd (write_files_to_output fs root out a wl w) = Ok tt /\
  w_disk (fst (write_files_to_output fs root out a wl w)) !! out = Some [].
Proof.
  intros Ha Hwl Hgi Hstar.
  destruct (run_disk fs root out a wl w gi Ha Hwl Hgi) as [Hd Hr]. cbv zeta in Hd, Hr.
  rewrite kept_none in Hd, Hr.
  - split; [assumption|]. rewrite Hd. apply lookup_insert_eq.
  - intros p. apply any_match_iff. exists [ch_star]. split; [assumption|].
    left. apply fnmatch_star.
  - intros p. apply any_match_iff. exists [ch_star]. split; [assumption|].
    left. apply fnmatch_star.
Qed.

End Patterns.

(** ** The patterns an ignore file gives *)

Lemma lstrip_split (s : str) :
  exists pre, s = pre ++ lstrip s /\ Forall (fun c => isspace c = true) pre.
Proof.
  induction s as [|c s (pre & Heq & Hpre)]; [exists []; split; [reflexivity|constructor]|].
  simpl. destruct (isspace c) eqn:E.
  - exists (c :: pre). split; [simpl; f_equal; assumption|constructor; assumption].
  - exists []. split; [reflexivity|constructor].
Qed.

Lemma lstrip_head (s : str) (c : char) (t : str) :
  lstrip s = c :: t -> isspace c = false.
Proof.
  induction s as [|x s IH]; simpl; [discriminate|].
  destruct (isspace x) eqn:E; [assumption|]. intros [= -> _]. assumption.
Qed.

Lemma lstrip_fixed (s : str) :
  match s with [] => True | c :: _ => isspace c = false end -> lstrip s = s.
Proof. destruct s as [|c s]; simpl; [reflexivity|]. intros ->. reflexivity. Qed.

Lemma lstrip_idem (s : str) : lstrip (lstrip s) = lstrip s.
Proof.
  apply lstrip_fixed. destruct (lstrip s) as [|c t] eqn:E; [exact I|].
  apply (lstrip_head s c t). assumption.
Qed.

Lemma rstrip_split (s : str) :
  exists post, s = rstrip s ++ post /\ Forall (fun c => isspace c = true) post.
Proof.
  destruct (lstrip_split (rev s)) as (pre & Heq & Hpre).
  exists (rev pre). split.
  - unfold rstrip. rewrite <- rev_app_distr, <- Heq, rev_involutive. reflexivity.
  - apply List.Forall_forall. intros c Hc. apply in_rev in Hc.
    rewrite List.Forall_forall in Hpre. apply Hpre. assumption.
Qed.

Lemma strip_idem (s : str) : strip (strip s) = strip s.
Proof.
  unfold strip. set (t := lstrip s).
  assert (Ht : match t with [] => True | c :: _ => isspace c = false end).
  { subst t. destruct (lstrip s) as [|c t'] eqn:E; [exact I|].
    apply (lstrip_head s c t'). assumption. }
  assert (Hl : lstrip (rstrip t) = rstrip t).
  { apply lstrip_fixed. destruct (rstrip_split t) as (post & Heq & _).
    destruct (rstrip t) as [|x r]; [exact I|].
    rewrite Heq in Ht. exact Ht. }
  rewrite Hl. unfold rstrip. rewrite rev_involutive, lstrip_idem. reflexivity.
Qed.

Lemma in_lstrip (c : char) (s : str) : In c (lstrip s) -> In c s.
Proof.
  destruct (lstrip_split s) as (pre & Heq & _). intros H. rewrite Heq.
  apply in_or_app. right. assumption.
Qed.

Lemma in_strip (c : char) (s : str) : In c (strip s) -> In c s.
Proof.
  unfold strip, rstrip. intros H. apply in_rev in H. apply in_lstrip in H.
  apply in_rev in H. apply in_lstrip. assumption.
Qed.

Lemma lstrip_snoc_space (x : str) (c : char) :
  isspace c = true ->
  lstrip (x ++ [c]) = match lstrip x with [] => [] | _ :: _ => lstrip x ++ [c] end.
Proof.
  intros Hc. induction x as [|y x IH]; simpl; [rewrite Hc; reflexivity|].
  destruct (isspace y); [assumption|reflexivity].
Qed.

Lemma rstrip_snoc_space (x : str) (c : char) :
  isspace c = true -> rstrip (x ++ [c]) = rstrip x.
Proof.
  intros Hc. unfold rstrip. rewrite rev_app_distr. simpl. rewrite Hc. reflexivity.
Qed.

Lemma strip_snoc_space (x : str) (c : char) :
  isspace c = true -> strip (x ++ [c]) = strip x.
Proof.
  intros Hc. unfold strip. rewrite lstrip_snoc_space by assumption.
  destruct (lstrip x) as [|y t]; [reflexivity|].
  apply rstrip_snoc_space. assumption.
Qed.

(** A line of a text is free of newlines but for the one that ends it. *)
Lemma lines_from_shape (s : str) :
  forall cur, ~ In ch_nl cur ->
    Forall (fun l => exists body, ~ In ch_nl body /\ (l = body \/ l = body ++ [ch_nl]))
      (lines_from cur s).
Proof.
  induction s as [|c s IH]; intros cur Hcur; simpl.
  - destruct cur as [|x cur]; constructor; [|constructor].
    exists (rev (x :: cur)). split; [|left; reflexivity].
    intros H. apply in_rev in H. apply Hcur. assumption.
  - destruct (c =? ch_nl) eqn:E.
    + apply N.eqb_eq in E. subst c. constructor; [|apply IH; intros []].
      exists (rev cur). split; [|right; reflexivity].
      intros H. apply in_rev in H. apply Hcur. assumption.
    + apply IH. intros [H|H]; [|apply Hcur; assumption].
      apply N.eqb_neq in E. congruence.
Qed.

Lemma pattern_lines_clean (text : str) :
  Forall (fun p => p <> [] /\ startswith p [ch_hash] = false /\ strip p = p
                   /\ ~ In ch_nl p)
    (pattern_lines text).
Proof.
  unfold pattern_lines. apply List.Forall_forall. intros p Hp.
  apply List.filter_In in Hp as [Hin Hkeep].
  apply List.in_map_iff in Hin as (line & <- & Hline).
  destruct (strip line) as [|c t] eqn:E; [discriminate|]. simpl in Hkeep.
  split; [discriminate|]. split.
  { simpl. apply negb_true_iff in Hkeep. rewrite Hkeep. reflexivity. }
  split; [rewrite <- E; apply strip_idem|].
  pose proof (lines_from_shape text [] (fun H => H)) as Hshape.
  rewrite List.Forall_forall in Hshape.
  destruct (Hshape line Hline) as (body & Hbody & [->| ->]).
  - rewrite <- E. intros H. apply in_strip in H. contradiction.
  - rewrite <- E, strip_snoc_space by reflexivity.
    intros H. apply in_strip in H. contradiction.
Qed.

Section Clean.

Variable fs : filesys.

(** X7. Every pattern in the list [read_gitignore] returns is non-empty,
    does not begin with [#], has no white space at either end (stripping it
    again changes nothing) and holds no newline: one pattern per line of the
    file, whatever the file holds. *)
Theorem read_gitignore_patterns_clean (path : str) (w : world) (l : loc) :
  snd (read_gitignore fs path w) = Ok l ->
  Forall (fun p => p <> [] /\ startswith p [ch_hash] = false /\ strip p = p
                   /\ ~ In ch_nl p)
    (heap_list (fst (read_gitignore fs path w)) l).
Proof.
  rewrite read_gitignore_run. cbn [fst snd]. unfold gitignore_patterns.
  destruct (fs_file fs path) as [| |content]; [|discriminate|].
  - intros [= <-]. unfold heap_list. simpl.
    rewrite list_lookup_middle by reflexivity. constructor.
  - destruct (utf8_decode content) as [text|]; [|discriminate].
    intros [= <-]. unfold heap_list. simpl.
    rewrite list_lookup_middle by reflexivity. apply pattern_lines_clean.
Qed.

End Clean.

(** ** The text of a file *)

Lemma universal_newlines_no_cr (s : str) : ~ In ch_cr (universal_newlines s).
Proof.
  assert (H : forall n s, (length s <= n)%nat -> ~ In ch_cr (universal_newlines s)).
  { clear s. induction n as [|n IH]; intros [|c r] Hn; simpl in Hn;
      try (intros []); try lia.
    cbn [universal_newlines]. destruct (c =? ch_cr) eqn:E.
    - intros [H|H]; [discriminate|].
      destruct r as [|d r']; [destruct H|].
      destruct (d =? ch_nl); revert H; apply IH; simpl in *; lia.
    - intros [H|H]; [apply N.eqb_neq in E; congruence|].
      revert H. apply IH. lia. }
  apply (H (length s)). lia.
Qed.

Section Text.

Variable fs : filesys.

(** X8. The text [read_file_contents] returns holds no carriage return,
    under either encoding: the file is opened in text mode, which turns
    ["\r\n"] and ["\r"] into ["\n"]. *)
Theorem read_file_contents_no_cr (path : str) (w : world) (text : str) :
  snd (read_file_contents fs path w) = Ok text -> ~ In ch_cr text.
Proof.
  rewrite read_file_contents_run. cbn [snd]. unfold read_text.
  destruct (fs_file fs path) as [| |content]; try discriminate.
  destruct (utf8_decode content); intros [= <-]; apply universal_newlines_no_cr.
Qed.

End Text.

(** ** The files a walk reaches *)

Lemma existsb_in_filter (P : str -> bool) (name : str) (names : list str) :
  In name names -> P name = true ->
  existsb (str_eqb name) (List.filter P names) = true.
Proof.
  intros Hin HP. apply existsb_exists. exists name. split.
  - apply List.filter_In. split; assumption.
  - apply str_eqb_eq. reflexivity.
Qed.

Lemma walk_checks_files (pats : list str) (d : dir) :
  forall (root p : str),
    In (CFile p) (walk_checks pats root d) <-> reach pats root d p.
Proof.
  induction d as [subdirs files IHd] using dir_ind. intros root p.
  cbn [walk_checks].
  set (dirs := List.filter (fun n => negb (any_match (path_join root n) pats))
                 (List.map fst subdirs)).
  assert (Hdirs : forall name, existsb (str_eqb name) dirs = true ->
                               any_match (path_join root name) pats = false).
  { intros name H. apply existsb_filter in H. apply negb_true_iff in H. assumption. }
  split.
  - intros H. apply in_app_or in H as [H|H].
    { apply List.in_map_iff in H as (n & Hn & _). discriminate. }
    apply in_app_or in H as [H|H].
    { apply List.in_map_iff in H as (f & [= <-] & Hf). constructor. assumption. }
    assert (Hsub : exists name sub, In (name, sub) subdirs /\
                     existsb (str_eqb name) dirs = true /\
                     In (CFile p) (walk_checks pats (path_join root name) sub)).
    { clear IHd Hdirs. clearbody dirs.
      induction subdirs as [|[name sub] l IHl]; [destruct H|].
      apply in_app_or in H as [H|H].
      - destruct (existsb (str_eqb name) dirs) eqn:E; [|destruct H].
        exists name, sub. split; [left; reflexivity|]. split; assumption.
      - destruct (IHl H) as (n & s & Hin & He & Hc).
        exists n, s. split; [right; assumption|]. split; assumption. }
    destruct Hsub as (name & sub & Hin & He & Hc).
    apply reach_sub with (name := name) (sub := sub);
      [assumption|apply Hdirs; assumption|].
    rewrite List.Forall_forall in IHd. apply (IHd (name, sub) Hin). assumption.
  - intros H. inversion H as [? ? ? f Hf|? ? ? name sub ? Hin Hpass Hreach]; subst.
    + apply in_or_app. right. apply in_or_app. left.
      apply List.in_map_iff. exists f. split; [reflexivity|assumption].
    + apply in_or_app. right. apply in_or_app. right.
      assert (He : existsb (str_eqb name) dirs = true).
      { apply existsb_in_filter.
        - apply List.in_map_iff. exists (name, sub). split; [reflexivity|assumption].
        - rewrite Hpass. reflexivity. }
      rewrite List.Forall_forall in IHd.
      apply (IHd (name, sub) Hin) in Hreach. simpl in Hreach.
      clear IHd Hdirs H. clearbody dirs.
      induction subdirs as [|[n s] l IHl]; [destruct Hin|].
      apply in_or_app. destruct Hin as [[= -> ->]|Hin].
      * left. rewrite He. assumption.
      * right. apply IHl. assumption.
Qed.

Lemma in_kept (pats : list str) (cs : list check) (p : str) :
  In p (kept pats cs) <-> In (CFile p) cs /\ any_match p pats = false.
Proof.
  split; [apply kept_passes|]. intros [Hin Hp].
  induction cs as [|[q|q] cs IH]; simpl; [destruct Hin| |].
  - destruct Hin as [H|H]; [discriminate|apply IH; assumption].
  - destruct Hin as [[= ->]|H].
    + rewrite Hp. left. reflexivity.
    + destruct (any_match q pats); [|right]; apply IH; assumption.
Qed.

Section Reach.

Variable fs : filesys.

(** X9. In a walk that ends normally, the entries appended to the output
    are those of the files that pass the filter and lie beneath directories
    that all pass it, the root itself never being checked: a file is left out
    when its own path is excluded or when some directory between the root and
    the file is. *)
Theorem walk_writes_reachable (patterns : loc) (out root : str) (d : dir)
    (w : world) (old : str) :
  w_disk w !! out = Some old ->
  snd (walk fs patterns out root d w) = Ok tt ->
  exists ps,
    w_disk (fst (walk fs patterns out root d w)) !! out
      = Some (old ++ concat (List.map (entry_of fs) ps)) /\
    forall p, In p ps <->
      reach (heap_list w patterns) root d p /\
      any_match p (heap_list w patterns) = false.
Proof.
  intros Hold Hok. rewrite walk_run in Hok |- *.
  set (pats := heap_list w patterns) in *.
  destruct (checks_disk fs out pats (walk_checks pats root d) w old Hold) as [Hd Hr].
  rewrite Hr in Hok. destruct (emit_ok fs _ Hok) as [Ht _].
  exists (kept pats (walk_checks pats root d)). split.
  - rewrite Hd, Ht. apply lookup_insert_eq.
  - intros p. rewrite in_kept, walk_checks_files. reflexivity.
Qed.

End Reach.

(** ** What a run prints, opens and writes *)

Lemma passed_passes (pats : list str) (cs : list check) (q : str) :
  In q (passed pats cs) -> any_match q pats = false.
Proof.
  induction cs as [|[p|p] cs IH]; simpl; [intros []| |];
    destruct (any_match p pats) eqn:E; try assumption;
    (intros [<-|H]; [assumption|apply IH; assumption]).
Qed.

Section Trace.

Variable fs : filesys.
Variable out : str.

Lemma read_log_path (p q : str) (enc : encoding) :
  In (q, enc) (read_log fs p) -> q = p.
Proof.
  unfold read_log. destruct (fs_file fs p) as [| |content];
    [| |destruct (utf8_decode content)]; simpl; intuition congruence.
Qed.

Lemma checks_trace (pats : list str) (cs : list check) :
  forall w : world,
    exists pre post done rest,
      passed pats cs = pre ++ post /\
      kept pats cs = done ++ rest /\
      w_stdout (fst (for_each cs (do_check fs out pats) w)) = w_stdout w ++ pre /\
      w_opened (fst (for_each cs (do_check fs out pats) w))
        = w_opened w ++ concat (List.map (read_log fs) done) /\
      (snd (for_each cs (do_check fs out pats) w) = Ok tt -> post = [] /\ rest = []).
Proof.
  induction cs as [|c cs IH]; intros w.
  - exists [], [], [], []. simpl. rewrite !app_nil_r. repeat split; reflexivity.
  - cbn [for_each]. rewrite run_bind, do_check_run.
    destruct c as [p|p]; cbn [passed kept]; destruct (any_match p pats) eqn:E.
    + apply IH.
    + destruct (IH (set_stdout (w_stdout w ++ [p]) w))
        as (pre & post & done & rest & Hp & Hk & Hs & Ho & Hok).
      exists (p :: pre), post, done, rest. rewrite Hp, Hs, Ho. simpl.
      rewrite <- app_assoc. repeat split; try reflexivity; try assumption; apply Hok; assumption.
    + apply IH.
    + rewrite write_entry_run. cbv zeta.
      destruct (read_text fs p) as [content|e].
      * match goal with |- context [for_each cs _ ?w1] =>
          destruct (IH w1) as (pre & post & done & rest & Hp & Hk & Hs & Ho & Hok) end.
        exists (p :: pre), post, (p :: done), rest. rewrite Hp, Hk, Hs, Ho. simpl.
        rewrite <- !app_assoc.
        repeat split; try reflexivity; apply Hok; assumption.
      * exists [p], (passed pats cs), [p], (kept pats cs). simpl.
        rewrite app_nil_r. repeat split; try reflexivity; discriminate.
Qed.

End Trace.

Section More.

Variable fs : filesys.

(** X10. [is_ignored] prints a path exactly when it lets it pass.  A run
    adds to standard output only paths that no pattern excludes, and a run
    that ends normally adds the paths of all the wildcard files,
    subdirectories and files that pass the filter, once for each check, in
    the order of the checks. *)
Theorem run_prints_passing_paths (root out : str) (a wl : option loc) (w : world)
    (gi : list str) :
  arg_valid w a -> arg_valid w wl ->
  gitignore_patterns fs (lit ".gitignore") = Ok gi ->
  exists printed,
    w_stdout (fst (write_files_to_output fs root out a wl w)) = w_stdout w ++ printed /\
    (forall q, In q printed -> any_match q (gi ++ arg_list w a) = false) /\
    (snd (write_files_to_output fs root out a wl w) = Ok tt ->
     printed = passed (gi ++ arg_list w a)
                 (all_checks fs (gi ++ arg_list w a) (arg_list w wl) root)).
Proof.
  intros Ha Hwl Hgi. rewrite write_files_to_output_run, Hgi by assumption. cbv zeta.
  set (pats := gi ++ arg_list w a).
  destruct (checks_trace fs out pats (all_checks fs pats (arg_list w wl) root)
              (start_world fs out a wl pats w))
    as (pre & post & done & rest & Hp & _ & Hs & _ & Hok).
  exists pre. split; [exact Hs|]. split.
  - intros q Hq. apply (passed_passes pats (all_checks fs pats (arg_list w wl) root)).
    rewrite Hp. apply in_or_app. left. assumption.
  - intros H. destruct (Hok H) as [-> _]. rewrite Hp, app_nil_r. reflexivity.
Qed.

(** X11. Apart from the ignore file, a run opens for reading only files
    that pass the filter: an excluded file is never opened, so it cannot make
    the run fail. *)
Theorem run_opens_only_passing_files (root out : str) (a wl : option loc) (w : world)
    (gi : list str) :
  arg_valid w a -> arg_valid w wl ->
  gitignore_patterns fs (lit ".gitignore") = Ok gi ->
  exists log,
    w_opened (fst (write_files_to_output fs root out a wl w))
      = w_opened w ++ gitignore_log fs (lit ".gitignore") ++ log /\
    forall q enc, In (q, enc) log -> any_match q (gi ++ arg_list w a) = false.
Proof.
  intros Ha Hwl Hgi. rewrite write_files_to_output_run, Hgi by assumption. cbv zeta.
  set (pats := gi ++ arg_list w a).
  destruct (checks_trace fs out pats (all_checks fs pats (arg_list w wl) root)
              (start_world fs out a wl pats w))
    as (pre & post & done & rest & _ & Hk & _ & Ho & _).
  exists (concat (List.map (read_log fs) done)). split.
  - rewrite Ho. simpl. rewrite <- app_assoc. reflexivity.
  - intros q enc Hq. apply in_concat in Hq as (lg & Hlg & Hq).
    apply List.in_map_iff in Hlg as (p & <- & Hp).
    apply read_log_path in Hq. subst q.
    apply (kept_passes pats (all_checks fs pats (arg_list w wl) root)).
    rewrite Hk. apply in_or_app. left. assumption.
Qed.

(** X12. With no wildcard file and a root that is not a directory that can
    be listed, the run is not an error: it ends normally and leaves an empty
    output file. *)
Theorem no_input_gives_empty_output (root out : str) (a wl : option loc) (w : world)
    (gi : list str) :
  arg_valid w a -> arg_valid w wl ->
  gitignore_patterns fs (lit ".gitignore") = Ok gi ->
  arg_list w wl = [] ->
  fs_tree fs root = None ->
  snd (write_files_to_output fs root out a wl w) = Ok tt /\
  w_disk (fst (write_files_to_output fs root out a wl w)) !! out = Some [].
Proof.
  intros Ha Hwl Hgi Hnone Htree.
  destruct (run_disk fs root out a wl w gi Ha Hwl Hgi) as [Hd Hr]. cbv zeta in Hd, Hr.
  unfold all_checks in Hd, Hr. rewrite Hnone, Htree in Hd, Hr. simpl in Hd, Hr.
  split; [assumption|]. rewrite Hd. apply lookup_insert_eq.
Qed.

Lemma run_disk_all (root out : str) (a wl : option loc) (w : world) :
  arg_valid w a -> arg_valid w wl ->
  (w_disk (fst (write_files_to_output fs root out a wl w)),
   snd (write_files_to_output fs root out a wl w)) =
  match gitignore_patterns fs (lit ".gitignore") with
  | Ok gi =>
      let pats := gi ++ arg_list w a in
      let ps := kept pats (all_checks fs pats (arg_list w wl) root) in
      (<[out := fst (emit fs ps)]> (w_disk w), snd (emit fs ps))
  | Raise e => (w_disk w, Raise e)
  end.
Proof.
  intros Ha Hwl.
  destruct (gitignore_patterns fs (lit ".gitignore")) as [gi|e] eqn:Hgi.
  - destruct (run_disk fs root out a wl w gi Ha Hwl Hgi) as [Hd Hr].
    cbv zeta in *. rewrite Hd, Hr. reflexivity.
  - rewrite write_files_to_output_run, Hgi by assumption. reflexivity.
Qed.

(** X13. Only the elements of the two list arguments count: an omitted
    argument ([None]) gives the same output file and the same result as a
    list without elements. *)
Theorem omitted_argument_is_empty_list (root out : str) (a wl : option loc) (w : world) :
  arg_valid w a -> arg_valid w wl ->
  arg_list w a = [] -> arg_list w wl = [] ->
  w_disk (fst (write_files_to_output fs root out a wl w))
    = w_disk (fst (write_files_to_output fs root out None None w)) /\
  snd (write_files_to_output fs root out a wl w)
    = snd (write_files_to_output fs root out None None w).
Proof.
  intros Ha Hwl Hea Hewl.
  pose proof (run_disk_all root out a wl w Ha Hwl) as H1.
  pose proof (run_disk_all root out None None w I I) as H2.
  rewrite Hea, Hewl in H1. simpl arg_list in H2. rewrite <- H2 in H1.
  injection H1 as Hd Hr. split; assumption.
Qed.



End More.

(** ** Plain files, and the paths of a walk *)

Lemma utf8_ascii (bs : list N) :
  Forall (fun b => b < 128) bs -> utf8_decode_N bs = Some bs.
Proof.
  induction 1 as [|b bs Hb _ IH]; [reflexivity|].
  cbn [utf8_decode_N]. apply N.ltb_lt in Hb. rewrite Hb, IH. reflexivity.
Qed.

Lemma startswith_app (a b : str) : startswith (a ++ b) a = true.
Proof.
  induction a as [|x a IH]; simpl; [destruct b; reflexivity|].
  rewrite N.eqb_refl. assumption.
Qed.

Lemma startswith_trans (p q r : str) :
  startswith p q = true -> startswith q r = true -> startswith p r = true.
Proof.
  revert p q. induction r as [|z r IH]; intros p q Hpq Hqr; [destruct p; reflexivity|].
  destruct q as [|y q]; [discriminate|]. destruct p as [|x p]; [discriminate|].
  simpl in *. apply andb_true_iff in Hpq as [Hxy Hpq].
  apply andb_true_iff in Hqr as [Hyz Hqr].
  apply N.eqb_eq in Hxy, Hyz. subst. rewrite N.eqb_refl. simpl.
  apply (IH p q); assumption.
Qed.

Lemma path_join_prefix (root n : str) :
  relative_name n = true -> startswith (path_join root n) root = true.
Proof.
  unfold relative_name, path_join. intros H. apply negb_true_iff in H. rewrite H.
  destruct (match root with [] => true | _ :: _ => false end
            || endswith root [ch_slash]); apply startswith_app.
Qed.

Lemma relative_names_sub (subdirs : list (str * dir)) (files : list str)
    (name : str) (sub : dir) :
  relative_names (Dir subdirs files) = true -> In (name, sub) subdirs ->
  relative_name name = true /\ relative_names sub = true.
Proof.
  cbn [relative_names]. intros H Hin. apply andb_true_iff in H as [_ H].
  induction subdirs as [|[n s] l IH]; [destruct Hin|].
  apply andb_true_iff in H as [H Hl]. apply andb_true_iff in H as [Hn Hs].
  destruct Hin as [[= -> ->]|Hin]; [split; assumption|apply IH; assumption].
Qed.

Lemma reach_prefix (pats : list str) (root : str) (d : dir) (p : str) :
  reach pats root d p -> relative_names d = true -> startswith p root = true.
Proof.
  induction 1 as [root subdirs files f Hf|root subdirs files name sub p Hin _ _ IH];
    intros Hrel.
  - apply path_join_prefix. cbn [relative_names] in Hrel.
    apply andb_true_iff in Hrel as [Hfiles _].
    rewrite forallb_forall in Hfiles. apply Hfiles. assumption.
  - destruct (relative_names_sub subdirs files name sub Hrel Hin) as [Hn Hs].
    apply (startswith_trans p (path_join root name) root);
      [apply IH; assumption|apply path_join_prefix; assumption].
Qed.

Section Plain.

Variable fs : filesys.

(** X16. A file with no byte above 127 is opened once and read as its
    bytes, newlines translated: the UTF-8 reading and the Latin-1 reading of
    such a file are the same text, so the fallback changes nothing for it. *)
Theorem ascii_file_read_once (path : str) (content : bytes) (w : world) :
  fs_file fs path = Data content ->
  Forall (fun b => Byte.to_N b < 128) content ->
  read_file_contents fs path w =
    (set_opened (w_opened w ++ [(path, UTF8)]) w,
     Ok (universal_newlines (latin1_decode content))) /\
  decode UTF8 content = decode Latin1 content.
Proof.
  intros Hf Hascii.
  assert (Hd : utf8_decode content = Some (latin1_decode content)).
  { unfold utf8_decode, latin1_decode. apply utf8_ascii.
    apply List.Forall_map. assumption. }
  split; [|exact Hd].
  rewrite read_file_contents_run. unfold read_log, read_text. rewrite Hf, Hd.
  reflexivity.
Qed.

(** X17. The paths in the output of a walk are the root directory path as
    it was given, followed by the names on the way to the file: when the
    names listed in the tree are names (none begins with a slash), every
    path for which the walk writes an entry begins with the root path. *)
Theorem walk_paths_begin_with_root (patterns : loc) (out root : str) (d : dir)
    (w : world) (old : str) :
  relative_names d = true ->
  w_disk w !! out = Some old ->
  snd (walk fs patterns out root d w) = Ok tt ->
  exists ps,
    w_disk (fst (walk fs patterns out root d w)) !! out
      = Some (old ++ concat (List.map (entry_of fs) ps)) /\
    forall p, In p ps -> startswith p root = true.
Proof.
  intros Hrel Hold Hok. rewrite walk_run in Hok |- *.
  set (pats := heap_list w patterns) in *.
  destruct (checks_disk fs out pats (walk_checks pats root d) w old Hold) as [Hd Hr].
  rewrite Hr in Hok. destruct (emit_ok fs _ Hok) as [Ht _].
  exists (kept pats (walk_checks pats root d)). split.
  - rewrite Hd, Ht. apply lookup_insert_eq.
  - intros p Hp. apply in_kept in Hp as [Hp _]. apply walk_checks_files in Hp.
    apply (reach_prefix pats root d p); assumption.
Qed.

End Plain.

(** ** These properties on the example file system *)

Lemma literal_pattern_excludes_witness :
  lit "sub/.git" = lit ".git" \/ exists prefix, lit "sub/.git" = prefix ++ ch_slash :: lit ".git".
Proof.
  apply (proj1 (literal_pattern_excludes (lit "sub/.git") (lit ".git") O
                  (world_of_lists [[lit ".git"]]) eq_refl eq_refl)).
  vm_compute. reflexivity.
Defined.

Lemma suffix_pattern_excludes_witness :
  exists before, lit "dir/foo.py" = before ++ lit ".py".
Proof.
  apply (proj1 (suffix_pattern_excludes (lit "dir/foo.py") (lit ".py") O
                  (world_of_lists [[lit "*.py"]]) eq_refl eq_refl)).
  vm_compute. reflexivity.
Defined.

Lemma name_match_excludes_witness :
  snd (is_ignored (path_join (lit "./src") (lit "node_modules")) O
         (world_of_lists [[lit "*.log"; lit "node_modules"]])) = Ok true.
Proof.
  apply (name_match_excludes (lit "./src") (lit "node_modules") (lit "node_modules")).
  - right. left. reflexivity.
  - vm_compute. reflexivity.
Defined.

Lemma pattern_order_irrelevant_witness :
  snd (is_ignored (lit "dir/foo.py") 0%nat
         (world_of_lists [[lit ".git"; lit "*.py"]; [lit "*.py"; lit ".git"; lit "*.py"]]))
  = snd (is_ignored (lit "dir/foo.py") 1%nat
           (world_of_lists [[lit ".git"; lit "*.py"]; [lit "*.py"; lit ".git"; lit "*.py"]])).
Proof.
  apply pattern_order_irrelevant. intros p. unfold heap_list. simpl. tauto.
Defined.

Lemma both_pattern_lists_apply_witness :
  exists ps,
    w_disk (fst (write_files_to_output example_fs (lit ".") (lit "output.txt")
                   (Some 0%nat) (Some 1%nat) example_world)) !! lit "output.txt"
      = Some (fst (emit example_fs ps)) /\
    forall p, In p ps ->
      any_match p example_gitignore = false /\
      any_match p (arg_list example_world (Some 0%nat)) = false.
Proof.
  exact (both_pattern_lists_apply example_fs (lit ".") (lit "output.txt")
           (Some 0%nat) (Some 1%nat) example_world example_gitignore
           (proj1 example_args_valid) (proj2 example_args_valid)
           example_gitignore_loaded).
Defined.

Lemma star_pattern_empties_output_witness :
  snd (write_files_to_output example_fs (lit ".") (lit "output.txt")
         (Some 0%nat) (Some 1%nat) (world_of_lists [[[ch_star]]; [lit "./a.txt"]]))
    = Ok tt /\
  w_disk (fst (write_files_to_output example_fs (lit ".") (lit "output.txt")
                 (Some 0%nat) (Some 1%nat)
                 (world_of_lists [[[ch_star]]; [lit "./a.txt"]])))
    !! lit "output.txt" = Some [].
Proof.
  apply (star_pattern_empties_output example_fs (lit ".") (lit "output.txt")
           (Some 0%nat) (Some 1%nat) (world_of_lists [[[ch_star]]; [lit "./a.txt"]])
           example_gitignore).
  - simpl. lia.
  - simpl. lia.
  - exact example_gitignore_loaded.
  - right. right. left. reflexivity.
Defined.

Lemma read_gitignore_patterns_clean_witness :
  Forall (fun p => p <> [] /\ startswith p [ch_hash] = false /\ strip p = p
                   /\ ~ In ch_nl p)
    (heap_list (fst (read_gitignore example_fs (lit ".gitignore") (world_of_lists [])))
       0%nat).
Proof.
  apply (read_gitignore_patterns_clean example_fs (lit ".gitignore") (world_of_lists [])).
  vm_compute. reflexivity.
Defined.

Lemma read_file_contents_no_cr_witness :
  ~ In ch_cr (universal_newlines (lit "secret.txt" ++ [ch_nl] ++
                lit "  # indented comment  " ++ [ch_nl] ++
                lit "# comment" ++ [ch_cr; ch_nl; ch_nl] ++ lit " *.log ")).
Proof.
  apply (read_file_contents_no_cr example_fs (lit ".gitignore") (world_of_lists [])).
  vm_compute. reflexivity.
Defined.

Lemma example_walk_ok :
  snd (walk example_fs 0%nat (lit "output.txt") (lit ".") example_tree
         example_walk_world) = Ok tt.
Proof. vm_compute. reflexivity. Defined.

Lemma walk_writes_reachable_witness :
  exists ps,
    w_disk (fst (walk example_fs 0%nat (lit "output.txt") (lit ".") example_tree
                   example_walk_world)) !! lit "output.txt"
      = Some (lit "OLD" ++ concat (List.map (entry_of example_fs) ps)) /\
    forall p, In p ps <->
      reach (heap_list example_walk_world 0%nat) (lit ".") example_tree p /\
      any_match p (heap_list example_walk_world 0%nat) = false.
Proof.
  apply (walk_writes_reachable example_fs 0%nat (lit "output.txt") (lit ".")
           example_tree example_walk_world (lit "OLD")).
  - vm_compute. reflexivity.
  - exact example_walk_ok.
Defined.

Lemma run_prints_passing_paths_witness :
  exists printed,
    w_stdout (fst (write_files_to_output example_fs (lit ".") (lit "output.txt")
                     (Some 0%nat) (Some 1%nat) example_world))
      = w_stdout example_world ++ printed /\
    (forall q, In q printed ->
       any_match q (example_gitignore ++ arg_list example_world (Some 0%nat)) = false) /\
    (snd (write_files_to_output example_fs (lit ".") (lit "output.txt")
            (Some 0%nat) (Some 1%nat) example_world) = Ok tt ->
     printed =
       passed (example_gitignore ++ arg_list example_world (Some 0%nat))
         (all_checks example_fs
            (example_gitignore ++ arg_list example_world (Some 0%nat))
            (arg_list example_world (Some 1%nat)) (lit "."))).
Proof.
  exact (run_prints_passing_paths example_fs (lit ".") (lit "output.txt")
           (Some 0%nat) (Some 1%nat) example_world example_gitignore
           (proj1 example_args_valid) (proj2 example_args_valid)
           example_gitignore_loaded).
Defined.

Lemma run_opens_only_passing_files_witness :
  exists log,
    w_opened (fst (write_files_to_output example_fs (lit ".") (lit "output.txt")
                     (Some 0%nat) (Some 1%nat) example_world))
      = w_opened example_world ++ gitignore_log example_fs (lit ".gitignore") ++ log /\
    forall q enc, In (q, enc) log ->
      any_match q (example_gitignore ++ arg_list example_world (Some 0%nat)) = false.
Proof.
  exact (run_opens_only_passing_files example_fs (lit ".") (lit "output.txt")
           (Some 0%nat) (Some 1%nat) example_world example_gitignore
           (proj1 example_args_valid) (proj2 example_args_valid)
           example_gitignore_loaded).
Defined.

Lemma no_input_gives_empty_output_witness :
  snd (write_files_to_output example_fs (lit "nowhere") (lit "output.txt")
         (Some 0%nat) (Some 1%nat) (world_of_lists [builtin_patterns; []])) = Ok tt /\
  w_disk (fst (write_files_to_output example_fs (lit "nowhere") (lit "output.txt")
                 (Some 0%nat) (Some 1%nat) (world_of_lists [builtin_patterns; []])))
    !! lit "output.txt" = Some [].
Proof.
  apply (no_input_gives_empty_output example_fs (lit "nowhere") (lit "output.txt")
           (Some 0%nat) (Some 1%nat) (world_of_lists [builtin_patterns; []])
           example_gitignore).
  - simpl. lia.
  - simpl. lia.
  - exact example_gitignore_loaded.
  - reflexivity.
  - reflexivity.
Defined.

Lemma omitted_argument_is_empty_list_witness :
  w_disk (fst (write_files_to_output example_fs (lit ".") (lit "output.txt")
                 (Some 0%nat) (Some 0%nat) (world_of_lists [[]])))
    = w_disk (fst (write_files_to_output example_fs (lit ".") (lit "output.txt")
                     None None (world_of_lists [[]]))) /\
  snd (write_files_to_output example_fs (lit ".") (lit "output.txt")
         (Some 0%nat) (Some 0%nat) (world_of_lists [[]]))
    = snd (write_files_to_output example_fs (lit ".") (lit "output.txt")
             None None (world_of_lists [[]])).
Proof.
  apply (omitted_argument_is_empty_list example_fs (lit ".") (lit "output.txt")
           (Some 0%nat) (Some 0%nat) (world_of_lists [[]])).
  - simpl. lia.
  - simpl. lia.
  - reflexivity.
  - reflexivity.
Defined.


Lemma ascii_file_read_once_witness :
  read_file_contents example_fs (lit "./a.txt") (world_of_lists []) =
    (set_opened (w_opened (world_of_lists []) ++ [(lit "./a.txt", UTF8)])
       (world_of_lists []),
     Ok (universal_newlines (latin1_decode (list_byte_of_string "hello")))) /\
  decode UTF8 (list_byte_of_string "hello") = decode Latin1 (list_byte_of_string "hello").
Proof.
  apply (ascii_file_read_once example_fs (lit "./a.txt") (list_byte_of_string "hello")).
  - reflexivity.
  - repeat (constructor; [reflexivity|]). constructor.
Defined.

Lemma walk_paths_begin_with_root_witness :
  exists ps,
    w_disk (fst (walk example_fs 0%nat (lit "output.txt") (lit ".") example_tree
                   example_walk_world)) !! lit "output.txt"
      = Some (lit "OLD" ++ concat (List.map (entry_of example_fs) ps)) /\
    forall p, In p ps -> startswith p (lit ".") = true.
Proof.
  apply (walk_paths_begin_with_root example_fs 0%nat (lit "output.txt") (lit ".")
           example_tree example_walk_world (lit "OLD")).
  - vm_compute. reflexivity.
  - vm_compute. reflexivity.
  - exact example_walk_ok.
Defined.
